(** * Stock-analysis tools ([src/tools.py]): a shallow embedding

    The module under study offers six functions to an agent framework.
    Five of them send one query to a web-search client and scan the
    returned records with keyword and regular-expression heuristics; the
    sixth, [make_investment_decision], combines two summaries into a
    recommendation by counting bullet-delimited segments.

    Python strings are sequences of Unicode code points, and the code
    relies on that (slices such as [content[:200]], the one-character
    separator U+2022).  A string is therefore a [list] of code points.
    On ASCII text [str.lower] and the classes behind the patterns [\d]
    and [\s] are written out; what the interpreter takes from its Unicode
    tables beyond ASCII is a variable of the section, and so is the search
    client.  The tools catch no exception: a search that raises returns
    nothing to them, and the model covers the searches that return. *)

From Stdlib Require Import Ascii String DecimalString.
From Stdlib Require Import List NArith Arith Bool Lia.
Import ListNotations.

Set Implicit Arguments.

(** ** Strings *)

Definition codepoint := N.
Definition str := list codepoint.

(** String literals of the Python source are written here as Rocq string
    literals, whose bytes are the UTF-8 encoding held by this file, and
    decoded to code points as the interpreter decodes its source. *)
Fixpoint utf8_decode (acc : N) (need : nat) (bs : list N) : str :=
  match bs with
  | [] => []
  | b :: bs' =>
      match need with
      | S k =>
          let acc' := (acc * 64 + b mod 64)%N in
          match k with
          | O => acc' :: utf8_decode 0%N 0 bs'
          | S _ => utf8_decode acc' k bs'
          end
      | O =>
          if (b <? 128)%N then b :: utf8_decode 0%N 0 bs'
          else if (b <? 224)%N then utf8_decode (b mod 32)%N 1 bs'
          else if (b <? 240)%N then utf8_decode (b mod 16)%N 2 bs'
          else utf8_decode (b mod 8)%N 3 bs'
      end
  end.

Definition lit (s : string) : str :=
  utf8_decode 0%N 0 (map N_of_ascii (list_ascii_of_string s)).
Arguments lit s%_string.

(** The escape [\n] of the Python literals. *)
Definition NL : str := [10%N].

(** The separator of [count_points], U+2022. *)
Definition bullet : codepoint := 8226%N.

(** [a in b] for strings: [a] occurs in [b] as a contiguous run. *)
Fixpoint startswith (w s : str) : bool :=
  match w, s with
  | [], _ => true
  | _ :: _, [] => false
  | a :: w', b :: s' => (a =? b)%N && startswith w' s'
  end.

Fixpoint str_in (w s : str) : bool :=
  startswith w s ||
  match s with
  | [] => false
  | _ :: s' => str_in w s'
  end.

(** [s.split(sep)] for a separator of one code point, the only way the
    module calls it: the segments between the occurrences of [sep], the
    empty ones included. *)
Fixpoint split_on (sep : codepoint) (s : str) : list str :=
  match s with
  | [] => [[]]
  | c :: s' =>
      if (c =? sep)%N then [] :: split_on sep s'
      else match split_on sep s' with
           | seg :: segs => (c :: seg) :: segs
           | [] => [[c]]
           end
  end.

(** [sep.join(parts)]. *)
Fixpoint join (sep : str) (parts : list str) : str :=
  match parts with
  | [] => []
  | [p] => p
  | p :: ps => p ++ sep ++ join sep ps
  end.

(** [any(f(x) for x in xs)]. *)
Definition any {A} (f : A -> bool) (xs : list A) : bool := existsb f xs.

(** [d.get(key, default)] on a field that may be absent. *)
Definition get {A} (field : option A) (default : A) : A :=
  match field with
  | Some v => v
  | None => default
  end.

(** An integer inside an f-string: its decimal digits. *)
Definition str_of_nat (n : nat) : str :=
  map N_of_ascii (list_ascii_of_string (NilEmpty.string_of_uint (Nat.to_uint n))).

(** Lower-casing of ASCII text. *)
Definition ascii_lower_cp (c : codepoint) : codepoint :=
  if ((65 <=? c) && (c <=? 90))%N then (c + 32)%N else c.

Definition ascii_lower (s : str) : str := map ascii_lower_cp s.

Definition is_ascii (s : str) : bool := forallb (fun c => (c <? 128)%N) s.

(** The ASCII part of the classes [\d] and [\s] of the [re] module:
    the digits 0 to 9; the space, the controls U+0009 to U+000D and the
    separators U+001C to U+001F. *)
Definition ascii_digit (c : codepoint) : bool := ((48 <=? c) && (c <=? 57))%N.

Definition ascii_space (c : codepoint) : bool :=
  ((c =? 32) || ((9 <=? c) && (c <=? 13)) || ((28 <=? c) && (c <=? 31)))%N.

(** ** Regular expressions, as the backtracking matcher of [re] runs them *)

Inductive regex : Type :=
| Cls (p : codepoint -> bool)   (* one code point of a class, or a literal *)
| Cat (a b : regex)             (* a followed by b *)
| Opt (a : regex)               (* a?, greedy *)
| Star (a : regex)              (* a*, greedy *)
| Grp (a : regex).              (* (a), the capturing group *)

Definition Chr (c : codepoint) : regex := Cls (N.eqb c).
Definition Plus (a : regex) : regex := Cat a (Star a).

(** A literal text, code point by code point. *)
Fixpoint Lit (s : str) : regex :=
  match s with
  | [] => Opt (Cls (fun _ => false))
  | [c] => Chr c
  | c :: s' => Cat (Chr c) (Lit s')
  end.

Section Matcher.
Variable R : Type.

(** The continuation receives what is left of the subject and the text
    of the group, and answers with the result of the whole match. *)
Definition cont := str -> option str -> option R.

Definition orelse (x y : option R) : option R :=
  match x with
  | Some _ => x
  | None => y
  end.

(** A greedy loop: one more iteration first, then the rest of the
    pattern.  An iteration that consumes nothing ends the loop, so the
    length of the text bounds the iterations and serves as fuel. *)
Fixpoint star_loop (step : cont -> cont) (k : cont) (fuel : nat) : cont :=
  fun s g =>
    match fuel with
    | O => k s g
    | S fuel' =>
        orelse
          (step (fun s' g' =>
                   if length s' <? length s
                   then star_loop step k fuel' s' g'
                   else None) s g)
          (k s g)
    end.

Fixpoint rmatch (r : regex) (k : cont) : cont :=
  match r with
  | Cls p =>
      fun s g =>
        match s with
        | c :: s' => if p c then k s' g else None
        | [] => None
        end
  | Cat a b => rmatch a (rmatch b k)
  | Opt a => fun s g => orelse (rmatch a k s g) (k s g)
  | Star a => fun s g => star_loop (rmatch a) k (length s) s g
  | Grp a =>
      fun s g =>
        rmatch a (fun s' _ => k s' (Some (firstn (length s - length s') s))) s g
  end.
End Matcher.

(** A match of [r] at the start of [s]: the text of the group and what
    follows the match. *)
Definition match_here (r : regex) (s : str) : option (str * str) :=
  rmatch r (fun s' g => Some (get g [], s')) s None.

(** [re.findall(r, s)] for a pattern with one group: the group of every
    match, scanning from the left; the search resumes where a match ended.
    [skip] counts the code points of the last match still to pass.  The
    patterns of the module end in a percent sign, so no match is empty. *)
Fixpoint findall_from (r : regex) (skip : nat) (s : str) : list str :=
  match skip with
  | S skip' =>
      match s with
      | [] => []
      | _ :: s' => findall_from r skip' s'
      end
  | O =>
      match match_here r s with
      | Some (g, rest) =>
          g :: match s with
               | [] => []
               | _ :: s' => findall_from r (length s - length rest - 1) s'
               end
      | None =>
          match s with
          | [] => []
          | _ :: s' => findall_from r 0 s'
          end
      end
  end.

Definition findall (r : regex) (s : str) : list str := findall_from r 0 s.

(** Python truth of a list: it is not empty. *)
Definition truthy {A} (l : list A) : bool :=
  match l with
  | [] => false
  | _ :: _ => true
  end.

(** ** The tools *)

(** A search result is a dictionary read through [get] at two keys. *)
Record SearchResult : Type := mkResult {
  title : option str;
  content : option str
}.

Section Tools.
(** [web_search.invoke]: the results of a query, in order. *)
Variable web_search : str -> list SearchResult.
(** The Unicode tables of the interpreter outside ASCII: lower-casing
    of a text that is not all ASCII, and the decimal digits and the
    white space above U+007F. *)
Variable unicode_lower : str -> str.
Variable unicode_digit unicode_space : codepoint -> bool.

(** [str.lower]: ASCII text is lower-cased letter by letter. *)
Definition lower (s : str) : str :=
  if is_ascii s then ascii_lower s else unicode_lower s.

(** The classes [\d] and [\s] of a pattern over [str]. *)
Definition is_digit (c : codepoint) : bool :=
  if (c <? 128)%N then ascii_digit c else unicode_digit c.

Definition is_space (c : codepoint) : bool :=
  if (c <? 128)%N then ascii_space c else unicode_space c.

(** *** search_and_extract_signals *)

Definition signal_entry (result : SearchResult) (content : str) : str :=
  lit "• " ++ get (title result) (lit "News") ++ lit ": "
    ++ firstn 200 content ++ lit "...".

(** One turn of the loop over the results. *)
Definition extract_step (keywords : list str)
    (signals : list str) (result : SearchResult) : list str :=
  let content := get (content result) [] in
  if any (fun word => str_in word (lower content)) keywords
  then signals ++ [signal_entry result content]
  else signals.

Definition search_and_extract_signals
    (stock_symbol query : str) (keywords : list str)
    (prefix default_msg : str) : str :=
  let results := web_search query in
  let signals := fold_left (extract_step keywords) results [] in
  if truthy signals
  then prefix ++ lit " for " ++ stock_symbol ++ lit ":" ++ NL
         ++ join NL (firstn 2 signals)
  else prefix ++ lit " " ++ stock_symbol ++ lit ": " ++ default_msg.

(** *** Bull agent *)

Definition find_positive_news (stock_symbol : str) : str :=
  let query :=
    stock_symbol
      ++ lit " stock positive news earnings growth revenue profit upgrade" in
  let keywords :=
    [lit "profit"; lit "growth"; lit "upgrade"; lit "beat"; lit "strong";
     lit "positive"; lit "bullish"] in
  let prefix := lit "🐂 POSITIVE SIGNALS" in
  let default :=
    lit "Limited positive news found, but that could mean it's undervalued!" in
  search_and_extract_signals stock_symbol query keywords prefix default.

(** The pattern [(\d+(?:\.\d+)?)\s*%]. *)
Definition number_re : regex :=
  Cat (Plus (Cls is_digit)) (Opt (Cat (Chr 46%N) (Plus (Cls is_digit)))).

Definition percent_re : regex :=
  Cat (Grp number_re) (Cat (Star (Cls is_space)) (Chr 37%N)).

Definition growth_terms : list str :=
  [lit "increase"; lit "growth"; lit "up"; lit "higher"; lit "rose";
   lit "gained"].

Definition growth_step (growth_indicators : list str)
    (result : SearchResult) : list str :=
  let content := lower (get (content result) []) in
  let percentages := findall percent_re content in
  let growth_indicators :=
    if truthy percentages
    then growth_indicators
           ++ map (fun p => p ++ lit "%") (firstn 3 percentages)
    else growth_indicators in
  if any (fun term => str_in term content) growth_terms
  then growth_indicators ++ [lit "Positive trend detected"]
  else growth_indicators.

Definition calculate_growth_potential (stock_symbol : str) : str :=
  let query :=
    stock_symbol
      ++ lit " stock price earnings revenue growth rate market cap" in
  let results := web_search query in
  let growth_indicators := fold_left growth_step results [] in
  if truthy growth_indicators
  then lit "📈 GROWTH POTENTIAL for " ++ stock_symbol ++ lit ": "
         ++ join (lit ", ") (firstn 3 growth_indicators)
  else lit "📈 " ++ stock_symbol
         ++ lit ": Growth data limited, but could indicate overlooked opportunity!".

(** *** Bear agent *)

Definition find_negative_news (stock_symbol : str) : str :=
  let query :=
    stock_symbol
      ++ lit " stock negative news risks decline losses downgrade warning" in
  let keywords :=
    [lit "loss"; lit "decline"; lit "risk"; lit "warning"; lit "downgrade";
     lit "weak"; lit "negative"; lit "bearish"; lit "concern"] in
  let prefix := lit "🐻 WARNING SIGNALS" in
  let default :=
    lit "No major red flags found, but market volatility always poses risks!" in
  search_and_extract_signals stock_symbol query keywords prefix default.

(** The pattern [down\s+(\d+(?:\.\d+)?)\s*%]. *)
Definition down_re : regex :=
  Cat (Lit (lit "down")) (Cat (Plus (Cls is_space)) percent_re).

Definition risk_terms : list str :=
  [lit "risk"; lit "volatile"; lit "uncertain"; lit "concern"; lit "debt";
   lit "competition"].

Definition risk_step (risk_factors : list str)
    (result : SearchResult) : list str :=
  let content := lower (get (content result) []) in
  let risk_factors :=
    if any (fun term => str_in term content) risk_terms
    then risk_factors ++ [lit "Market risk identified"]
    else risk_factors in
  let negative_changes := findall down_re content in
  if truthy negative_changes
  then risk_factors
         ++ map (fun p => lit "Down " ++ p ++ lit "%") (firstn 2 negative_changes)
  else risk_factors.

Definition assess_market_risks (stock_symbol : str) : str :=
  let query :=
    stock_symbol
      ++ lit " stock market risks volatility debt competition regulatory concerns" in
  let results := web_search query in
  let risk_factors := fold_left risk_step results [] in
  if truthy risk_factors
  then lit "⚠️ RISK ASSESSMENT for " ++ stock_symbol ++ lit ": "
         ++ join (lit ", ") (firstn 3 risk_factors)
  else lit "⚠️ " ++ stock_symbol
         ++ lit ": Risk factors unclear - proceed with extreme caution!".

(** *** Chairman agent *)

Definition sentiment_keywords : list str :=
  [lit "price"; lit "trading"; lit "market"; lit "analyst"].

Definition sentiment_entry (title content : str) : str :=
  lit "• " ++ title ++ lit ": " ++ firstn 150 content ++ lit "...".

Definition sentiment_step (sentiment_data : list str)
    (result : SearchResult) : list str :=
  let content := get (content result) [] in
  let title := get (title result) [] in
  if any (fun word => str_in word (lower (title ++ content))) sentiment_keywords
  then sentiment_data ++ [sentiment_entry title content]
  else sentiment_data.

Definition get_current_market_sentiment (stock_symbol : str) : str :=
  let query :=
    stock_symbol
      ++ lit " stock current price today market sentiment analyst rating" in
  let prefix := lit "📊 CURRENT MARKET DATA" in
  let default :=
    lit "Market data limited - need more information for decision" in
  let results := web_search query in
  let sentiment_data := fold_left sentiment_step results [] in
  if truthy sentiment_data
  then prefix ++ lit " for " ++ stock_symbol ++ lit ":" ++ NL
         ++ join NL (firstn 2 sentiment_data)
  else prefix ++ lit " " ++ stock_symbol ++ lit ": " ++ default.

Definition count_points (points : str) : nat :=
  if str_in [bullet] points then length (split_on bullet points) else 1.

Definition check_signals (text : str) (keywords : list str) : bool :=
  any (fun word => str_in word (lower text)) keywords.

Definition bull_keywords : list str :=
  [lit "growth"; lit "profit"; lit "upgrade"; lit "strong"].

Definition bear_keywords : list str :=
  [lit "risk"; lit "decline"; lit "warning"; lit "concern"].

(** The branches of the decision: recommendation and confidence. *)
Definition decision (bull_points bear_points : str) : str * str :=
  let bull_score := count_points bull_points in
  let bear_score := count_points bear_points in
  let strong_bull_signals := check_signals bull_points bull_keywords in
  let strong_bear_signals := check_signals bear_points bear_keywords in
  if (bear_score <? bull_score) && strong_bull_signals
  then (lit "BUY", lit "High")
  else if (bull_score <? bear_score) && strong_bear_signals
  then (lit "SELL/AVOID", lit "High")
  else (lit "HOLD/RESEARCH MORE", lit "Medium").

(** The returned text, from the values the branches left. *)
Definition decision_report
    (stock_symbol recommendation confidence : str)
    (bull_score bear_score : nat) : str :=
  lit "🎯 FINAL DECISION for " ++ stock_symbol ++ lit ": " ++ recommendation ++ NL
    ++ lit "Confidence Level: " ++ confidence ++ NL
    ++ lit "Bull Arguments: " ++ str_of_nat bull_score ++ lit " points" ++ NL
    ++ lit "Bear Arguments: " ++ str_of_nat bear_score ++ lit " points" ++ NL
    ++ lit "Recommendation: Based on current analysis, "
    ++ lower recommendation ++ lit " position".

Definition make_investment_decision
    (stock_symbol bull_points bear_points : str) : str :=
  let '(recommendation, confidence) := decision bull_points bear_points in
  decision_report stock_symbol recommendation confidence
    (count_points bull_points) (count_points bear_points).
End Tools.

(** ** Vocabulary of the statements *)

(** [w] occurs in [s] as a contiguous run of code points. *)
Definition occurs_in (w s : str) : Prop :=
  exists pre post, s = pre ++ w ++ post.

(** The text, lower-cased, holds one of the keywords. *)
Definition mentions (lower : str -> str) (keywords : list str) (text : str) : Prop :=
  exists word, In word keywords /\ occurs_in word (lower text).

(** How often a code point occurs in a text. *)
Fixpoint occurrences (c : codepoint) (s : str) : nat :=
  match s with
  | [] => 0
  | x :: s' => (if (x =? c)%N then 1 else 0) + occurrences c s'
  end.

(** [found] lists, in their order, the elements of [l] that satisfy [P]. *)
Inductive kept {A : Type} (P : A -> Prop) : list A -> list A -> Prop :=
| kept_nil : kept P [] []
| kept_take x l found : P x -> kept P l found -> kept P (x :: l) (x :: found)
| kept_drop x l found : ~ P x -> kept P l found -> kept P (x :: l) found.

(** [matches r w g g']: the pattern [r] matches exactly the text [w], and
    the text of the group, [g] before the match, is [g'] after it. *)
Inductive matches : regex -> str -> option str -> option str -> Prop :=
| matches_cls p c g :
    p c = true -> matches (Cls p) [c] g g
| matches_cat a b w1 w2 g g1 g2 :
    matches a w1 g g1 -> matches b w2 g1 g2 -> matches (Cat a b) (w1 ++ w2) g g2
| matches_opt_skip a g :
    matches (Opt a) [] g g
| matches_opt_take a w g g' :
    matches a w g g' -> matches (Opt a) w g g'
| matches_star_stop a g :
    matches (Star a) [] g g
| matches_star_more a w1 w2 g g1 g2 :
    matches a w1 g g1 -> matches (Star a) w2 g1 g2 ->
    matches (Star a) (w1 ++ w2) g g2
| matches_grp a w g g' :
    matches a w g g' -> matches (Grp a) w g (Some w).

(** One or more digits. *)
Definition digits (digit : codepoint -> bool) (d : str) : Prop :=
  d <> [] /\ Forall (fun c => digit c = true) d.

(** One or more digits, optionally followed by a decimal fraction: a
    full stop and one or more digits. *)
Definition number (digit : codepoint -> bool) (n : str) : Prop :=
  exists whole fraction,
    n = whole ++ fraction /\ digits digit whole /\
    (fraction = [] \/ exists d, fraction = lit "." ++ d /\ digits digit d).

(** White space, possibly none. *)
Definition blanks (space : codepoint -> bool) (ws : str) : Prop :=
  Forall (fun c => space c = true) ws.

(** Somewhere in [content] the number [p] stands, then white space,
    possibly none, then the percent sign. *)
Definition percent_follows (digit space : codepoint -> bool)
    (content p : str) : Prop :=
  exists pre ws post,
    content = pre ++ p ++ ws ++ lit "%" ++ post /\
    number digit p /\ blanks space ws.

(** Somewhere in [content] the word down stands, then white space, then
    the number [p], then white space, possibly none, then the percent
    sign. *)
Definition down_follows (digit space : codepoint -> bool)
    (content p : str) : Prop :=
  exists pre gap ws post,
    content = pre ++ lit "down" ++ gap ++ p ++ ws ++ lit "%" ++ post /\
    gap <> [] /\ blanks space gap /\ number digit p /\ blanks space ws.

(** Somewhere in [content] the number [p] stands with the percent sign
    right after it. *)
Definition percent_adjacent (digit : codepoint -> bool) (content p : str) : Prop :=
  exists pre post, content = pre ++ p ++ lit "%" ++ post /\ number digit p.

(** The pattern [(\d+(?:\.\d+)?)%]: the number with the percent sign right
    after it, as the specification words the extraction. *)
Definition immediate_percent_re (unicode_digit : codepoint -> bool) : regex :=
  Cat (Grp (number_re unicode_digit)) (Chr 37%N).

(** What a successful run of a matcher consumed is a match, and the
    continuation succeeded on the rest. *)
Definition sound_step {R : Type} (a : regex) (step : cont R -> cont R) : Prop :=
  forall k s g x,
    step k s g = Some x ->
    exists w s' g', s = w ++ s' /\ matches a w g g' /\ k s' g' = Some x.

(** A continuation that succeeds on the text [s], whatever the group. *)
Definition accepts {R : Type} (k : cont R) (s : str) : Prop :=
  forall g, k s g <> None.

(** When the text starts with a match after which the continuation
    succeeds, the run of the matcher succeeds. *)
Definition complete_step {R : Type} (a : regex) (step : cont R -> cont R) : Prop :=
  forall k w s' g0 g0',
    matches a w g0 g0' -> accepts k s' -> accepts (step k) (w ++ s').

(** A run of a matcher on [s] asks its continuation only about texts
    that are not longer than [s]. *)
Definition local_step {R : Type} (step : cont R -> cont R) : Prop :=
  forall k1 k2 s g,
    (forall s' g', length s' <= length s -> k1 s' g' = k2 s' g') ->
    step k1 s g = step k2 s g.

(** The text holds no bullet U+2022. *)
Definition bullet_free (text : str) : Prop := ~ occurs_in (lit "•") text.

(** A lower-casing keeps every run of ASCII code points in its place,
    lower-cased letter by letter, whatever stands around it.  [str.lower]
    does: the case of an ASCII letter depends on no context. *)
Definition keeps_ascii_runs (lowercase : str -> str) : Prop :=
  forall pre w post,
    is_ascii w = true -> occurs_in (ascii_lower w) (lowercase (pre ++ w ++ post)).

(** One list starts with another. *)
Definition starts_with {A : Type} (first l : list A) : Prop :=
  exists more, l = first ++ more.

(** [text] starts with the number [p], then white space, possibly none,
    then the percent sign; [rest] follows the percent sign. *)
Definition percent_here (digit space : codepoint -> bool)
    (text p rest : str) : Prop :=
  exists ws,
    text = p ++ ws ++ lit "%" ++ rest /\ number digit p /\ blanks space ws.

(** The matches of the percentage pattern in a text, from left to right
    and without overlap: where the text starts with a number, white space
    and a percent sign, the number is a match and the scan goes on after
    the percent sign; elsewhere the scan moves on by one code point. *)
Inductive percent_scan (digit space : codepoint -> bool) : str -> list str -> Prop :=
| percent_scan_end :
    percent_scan digit space [] []
| percent_scan_hit text p rest tokens :
    percent_here digit space text p rest ->
    percent_scan digit space rest tokens ->
    percent_scan digit space text (p :: tokens)
| percent_scan_skip c text tokens :
    (forall p rest, ~ percent_here digit space (c :: text) p rest) ->
    percent_scan digit space text tokens ->
    percent_scan digit space (c :: text) tokens.

(** No code point is both a digit and white space. *)
Definition disjoint_classes (digit space : codepoint -> bool) : Prop :=
  forall c, digit c = true -> space c = false.

(** The search result of the end-to-end scenario. *)
Definition acme_result : SearchResult :=
  mkResult (Some (lit "ACME beats estimates"))
           (Some (lit "ACME reported strong profit growth this quarter...")).

(** ** Strings: membership, splitting, joining *)

Lemma startswith_iff (w s : str) :
  startswith w s = true <-> exists post, s = w ++ post.
Proof.
  revert s; induction w as [|a w IH]; intros s; simpl.
  - split; [intros _; now exists s | reflexivity].
  - destruct s as [|b s].
    + split; [discriminate | intros [post H]; discriminate].
    + rewrite andb_true_iff, N.eqb_eq, IH. split.
      * intros [-> [post ->]]. now exists post.
      * intros [post H]. injection H as -> ->. split; [reflexivity | now exists post].
Qed.

Lemma str_in_iff (w s : str) : str_in w s = true <-> occurs_in w s.
Proof.
  unfold occurs_in. induction s as [|c s IH].
  - simpl. rewrite orb_false_r, startswith_iff. split.
    + intros [post H]. now exists [], post.
    + intros [pre [post H]]. destruct pre; simpl in H.
      * now exists post.
      * discriminate.
  - cbn [str_in]. rewrite orb_true_iff, startswith_iff, IH. split.
    + intros [[post H] | [pre [post H]]].
      * now exists [], post.
      * exists (c :: pre), post. now rewrite H.
    + intros [pre [post H]]. destruct pre as [|c' pre]; simpl in H.
      * left. now exists post.
      * right. injection H as _ H. now exists pre, post.
Qed.

Lemma str_in_false_iff (w s : str) : str_in w s = false <-> ~ occurs_in w s.
Proof.
  rewrite <- str_in_iff. destruct (str_in w s); split; congruence.
Qed.

Lemma occurs_in_single (c : codepoint) (s : str) : occurs_in [c] s <-> In c s.
Proof.
  split.
  - intros [pre [post ->]]. apply in_or_app. right. now left.
  - intros H. apply in_split in H. destruct H as [pre [post ->]]. now exists pre, post.
Qed.

Lemma str_in_single (c : codepoint) (s : str) : str_in [c] s = true <-> In c s.
Proof. now rewrite str_in_iff, occurs_in_single. Qed.

Lemma occurrences_zero (c : codepoint) (s : str) : occurrences c s = 0 <-> ~ In c s.
Proof.
  induction s as [|x s IH]; simpl.
  - split; [intros _ [] | reflexivity].
  - destruct (N.eqb_spec x c) as [->|Hne].
    + split; [discriminate | intros H; exfalso; apply H; now left].
    + rewrite IH. split.
      * intros H [E|Hin]; [congruence | contradiction].
      * intros H Hin. apply H. now right.
Qed.

Lemma occurrences_app (c : codepoint) (s t : str) :
  occurrences c (s ++ t) = occurrences c s + occurrences c t.
Proof. induction s as [|x s IH]; simpl; [reflexivity | rewrite IH; lia]. Qed.

Lemma split_on_cons (sep c : codepoint) (s : str) :
  split_on sep (c :: s) =
  if (c =? sep)%N then [] :: split_on sep s
  else (c :: hd [] (split_on sep s)) :: tl (split_on sep s).
Proof.
  simpl. destruct (c =? sep)%N; [reflexivity|].
  induction s as [|d s _]; [reflexivity|].
  destruct (split_on sep (d :: s)) eqn:E; [|reflexivity].
  exfalso. simpl in E. destruct (d =? sep)%N; [discriminate|].
  destruct (split_on sep s); discriminate.
Qed.

Lemma split_on_not_nil (sep : codepoint) (s : str) : split_on sep s <> [].
Proof.
  destruct s as [|c s]; [discriminate|].
  rewrite split_on_cons. destruct (c =? sep)%N; discriminate.
Qed.

Lemma split_on_length (sep : codepoint) (s : str) :
  length (split_on sep s) = S (occurrences sep s).
Proof.
  induction s as [|c s IH]; [reflexivity|].
  rewrite split_on_cons. cbn [occurrences].
  destruct (c =? sep)%N.
  - simpl. now rewrite IH.
  - cbn [Nat.add]. rewrite <- IH. pose proof (split_on_not_nil sep s).
    destruct (split_on sep s); [congruence | reflexivity].
Qed.

Lemma join_cons (sep p : str) (ps : list str) :
  ps <> [] -> join sep (p :: ps) = p ++ sep ++ join sep ps.
Proof. destruct ps; [congruence | reflexivity]. Qed.

Lemma split_on_join (sep : codepoint) (s : str) :
  join [sep] (split_on sep s) = s.
Proof.
  induction s as [|c s IH]; [reflexivity|].
  rewrite split_on_cons. pose proof (split_on_not_nil sep s) as Hne.
  destruct (N.eqb_spec c sep) as [->|_].
  - rewrite join_cons by assumption. simpl. now rewrite IH.
  - destruct (split_on sep s) as [|seg segs]; [congruence|].
    cbn [hd tl]. destruct segs as [|seg' segs].
    + simpl in *. now rewrite IH.
    + rewrite join_cons by discriminate. rewrite join_cons in IH by discriminate.
      rewrite <- IH at 1. reflexivity.
Qed.

Lemma split_on_segments (sep : codepoint) (s : str) :
  Forall (fun seg => ~ In sep seg) (split_on sep s).
Proof.
  induction s as [|c s IH].
  - constructor; [intros [] | constructor].
  - rewrite split_on_cons. pose proof (split_on_not_nil sep s) as Hne.
    destruct (N.eqb_spec c sep) as [->|Hc].
    + constructor; [intros [] | assumption].
    + destruct (split_on sep s) as [|seg segs]; [congruence|].
      inversion IH as [|? ? Hseg Hsegs]; subst. cbn [hd tl].
      constructor; [|assumption].
      intros [E|Hin]; [congruence | contradiction].
Qed.

(** A text cut into bullet-free segments has one segment more than it
    has bullets, whichever way the segments were found. *)
Lemma join_occurrences (sep : codepoint) (segs : list str) :
  segs <> [] ->
  Forall (fun seg => ~ In sep seg) segs ->
  length segs = S (occurrences sep (join [sep] segs)).
Proof.
  induction segs as [|seg segs IH]; [congruence|].
  intros _ Hall. inversion Hall as [|? ? Hseg Hsegs]; subst.
  apply occurrences_zero in Hseg.
  destruct segs as [|seg' segs].
  - simpl. now rewrite Hseg.
  - rewrite join_cons by discriminate.
    rewrite !occurrences_app, Hseg. cbn [occurrences]. rewrite N.eqb_refl.
    cbn [length Nat.add]. f_equal.
    apply IH; [discriminate | assumption].
Qed.

(** ** count_points *)

Lemma count_points_eq (text : str) : count_points text = S (occurrences bullet text).
Proof.
  unfold count_points. destruct (str_in [bullet] text) eqn:E.
  - apply split_on_length.
  - f_equal. symmetry. apply occurrences_zero.
    intros Hin. apply str_in_single in Hin. congruence.
Qed.

Example bullet_literal : lit "•" = [bullet].
Proof. reflexivity. Qed.

Example count_points_leading_bullet : count_points (lit "• A • B • C") = 4.
Proof. reflexivity. Qed.

Example count_points_trailing_bullet : count_points (lit "A •") = 2.
Proof. reflexivity. Qed.

(** C2. A text without the bullet U+2022, the empty text included, counts
    as one point.  A text with a bullet counts as many points as
    splitting it on the bullet yields segments; the segments are free of
    bullets and give the text back when joined by bullets, so the empty
    ones at either end count too, and every cut of the text into
    bullet-free segments has that many segments. *)
Theorem count_points_spec (text : str) :
  count_points [] = 1 /\
  (~ occurs_in (lit "•") text -> count_points text = 1) /\
  (occurs_in (lit "•") text ->
     count_points text = length (split_on bullet text)) /\
  join (lit "•") (split_on bullet text) = text /\
  Forall (fun seg => ~ occurs_in (lit "•") seg) (split_on bullet text) /\
  (forall segs : list str,
     occurs_in (lit "•") text ->
     segs <> [] ->
     Forall (fun seg => ~ occurs_in (lit "•") seg) segs ->
     join (lit "•") segs = text ->
     count_points text = length segs).
Proof.
  change (lit "•") with [bullet].
  repeat split.
  - intros Hno. rewrite count_points_eq. f_equal.
    apply occurrences_zero. now rewrite <- occurs_in_single.
  - intros _. now rewrite count_points_eq, split_on_length.
  - apply split_on_join.
  - eapply Forall_impl; [|apply split_on_segments].
    intros seg Hseg. now rewrite occurs_in_single.
  - intros segs _ Hne Hall <-. rewrite count_points_eq.
    symmetry. apply join_occurrences; [assumption|].
    eapply Forall_impl; [|exact Hall].
    intros seg Hseg. now rewrite <- occurs_in_single.
Qed.

(** ** make_investment_decision *)

Lemma any_str_in_iff (keywords : list str) (text : str) :
  any (fun word => str_in word text) keywords = true <->
  exists word, In word keywords /\ occurs_in word text.
Proof.
  unfold any. rewrite existsb_exists.
  split; intros [word [Hin H]]; exists word; split; trivial; now apply str_in_iff.
Qed.

Lemma check_signals_iff (unicode_lower : str -> str) (text : str) (keywords : list str) :
  check_signals unicode_lower text keywords = true <->
  mentions (lower unicode_lower) keywords text.
Proof. apply any_str_in_iff. Qed.

Lemma make_investment_decision_eq (unicode_lower : str -> str)
    (stock_symbol bull_points bear_points : str) :
  make_investment_decision unicode_lower stock_symbol bull_points bear_points =
  decision_report unicode_lower stock_symbol
    (fst (decision unicode_lower bull_points bear_points))
    (snd (decision unicode_lower bull_points bear_points))
    (count_points bull_points) (count_points bear_points).
Proof.
  unfold make_investment_decision.
  now destruct (decision unicode_lower bull_points bear_points).
Qed.


(** C7. With both texts empty each side scores one point and no keyword
    occurs in either text, so the decision is HOLD/RESEARCH MORE with
    confidence Medium, whatever the symbol; and on any two texts the
    decision is one of the three branches. *)
Theorem make_investment_decision_empty
    (unicode_lower : str -> str) (stock_symbol : str) :
  count_points [] = 1 /\
  ~ mentions (lower unicode_lower) bull_keywords [] /\
  ~ mentions (lower unicode_lower) bear_keywords [] /\
  decision unicode_lower [] [] = (lit "HOLD/RESEARCH MORE", lit "Medium") /\
  make_investment_decision unicode_lower stock_symbol [] [] =
    lit "🎯 FINAL DECISION for " ++ stock_symbol ++ lit ": HOLD/RESEARCH MORE" ++ NL
      ++ lit "Confidence Level: Medium" ++ NL
      ++ lit "Bull Arguments: 1 points" ++ NL
      ++ lit "Bear Arguments: 1 points" ++ NL
      ++ lit "Recommendation: Based on current analysis, hold/research more position" /\
  (forall bull_points bear_points : str,
     In (decision unicode_lower bull_points bear_points)
        [(lit "BUY", lit "High"); (lit "SELL/AVOID", lit "High");
         (lit "HOLD/RESEARCH MORE", lit "Medium")]).
Proof.
  split; [reflexivity|].
  split; [rewrite <- check_signals_iff; now intros H|].
  split; [rewrite <- check_signals_iff; now intros H|].
  split; [reflexivity|].
  split.
  - rewrite make_investment_decision_eq.
    change (decision unicode_lower [] [])
      with (lit "HOLD/RESEARCH MORE", lit "Medium").
    unfold decision_report. cbn [fst snd].
    change (count_points []) with 1.
    change (lower unicode_lower (lit "HOLD/RESEARCH MORE"))
      with (lit "hold/research more").
    do 2 f_equal; reflexivity.
  - intros bull_points bear_points. unfold decision.
    destruct (_ && _); [now left|].
    destruct (_ && _); [right; now left | right; right; now left].
Qed.

(** C9. Every text scores at least one point and a text with a bullet at
    least two, so a text with a bullet outscores every text without one;
    both scores in the report of a decision are positive. *)
Theorem count_points_positive :
  (forall text : str, 1 <= count_points text) /\
  (forall text : str, occurs_in (lit "•") text -> 2 <= count_points text) /\
  (forall summary plain : str,
     occurs_in (lit "•") summary -> ~ occurs_in (lit "•") plain ->
     count_points plain < count_points summary) /\
  (forall (unicode_lower : str -> str) (stock_symbol bull_points bear_points : str),
     exists (recommendation confidence : str) (bull_score bear_score : nat),
       make_investment_decision unicode_lower stock_symbol bull_points bear_points =
         decision_report unicode_lower stock_symbol recommendation confidence
           bull_score bear_score /\
       bull_score = count_points bull_points /\
       bear_score = count_points bear_points /\
       0 < bull_score /\ 0 < bear_score).
Proof.
  change (lit "•") with [bullet].
  assert (Htwo : forall text, occurs_in [bullet] text -> 2 <= count_points text).
  { intros text Hin. rewrite count_points_eq.
    destruct (occurrences bullet text) eqn:E; [|lia].
    apply occurrences_zero in E. now apply occurs_in_single in Hin. }
  split; [intros text; rewrite count_points_eq; lia|].
  split; [exact Htwo|].
  split.
  - intros summary plain Hs Hp. apply Htwo in Hs.
    assert (count_points plain = 1); [|lia].
    rewrite count_points_eq. f_equal. apply occurrences_zero.
    now rewrite <- occurs_in_single.
  - intros unicode_lower stock_symbol bull_points bear_points.
    rewrite make_investment_decision_eq.
    do 4 eexists. split; [reflexivity|].
    split; [reflexivity|]. split; [reflexivity|].
    rewrite !count_points_eq. lia.
Qed.

(** ** The loops over the search results *)

Lemma kept_filter {A : Type} (P : A -> Prop) (test : A -> bool) (l : list A) :
  (forall x, test x = true <-> P x) -> kept P l (filter test l).
Proof.
  intros Htest. induction l as [|x l IH]; simpl; [constructor|].
  destruct (test x) eqn:E.
  - apply kept_take; [now apply Htest | assumption].
  - apply kept_drop; [|assumption]. intros HP. apply Htest in HP. congruence.
Qed.

Lemma kept_In {A : Type} (P : A -> Prop) (l found : list A) :
  kept P l found -> forall x, In x found <-> In x l /\ P x.
Proof.
  induction 1 as [|y l found Hy _ IH|y l found Hy _ IH]; intros x; simpl.
  - tauto.
  - rewrite IH. split.
    + intros [->|[Hin HP]]; auto.
    + intros [[->|Hin] HP]; auto.
  - rewrite IH. split.
    + intros [Hin HP]; auto.
    + intros [[->|Hin] HP]; [contradiction | auto].
Qed.

Lemma kept_unique {A : Type} (P : A -> Prop) (l found found' : list A) :
  kept P l found -> kept P l found' -> found = found'.
Proof.
  intros H; revert found'.
  induction H as [|y l found Hy _ IH|y l found Hy _ IH]; intros found' H';
    inversion H'; subst; try contradiction; try reflexivity.
  - f_equal. now apply IH.
  - now apply IH.
Qed.

Lemma kept_none {A : Type} (P : A -> Prop) (l found : list A) :
  kept P l found -> (found = [] <-> ~ exists x, In x l /\ P x).
Proof.
  intros H. split.
  - intros -> [x Hx]. apply (kept_In H) in Hx. destruct Hx.
  - intros Hno. destruct found as [|x found]; [reflexivity|].
    exfalso. apply Hno. exists x. apply (kept_In H). now left.
Qed.

(** A loop that appends the formatted element when a test holds. *)
Lemma fold_left_select {A B : Type} (test : A -> bool) (fmt : A -> B)
    (l : list A) (acc : list B) :
  fold_left (fun acc x => if test x then acc ++ [fmt x] else acc) l acc =
  acc ++ map fmt (filter test l).
Proof.
  revert acc; induction l as [|x l IH]; intros acc; simpl.
  - now rewrite app_nil_r.
  - rewrite IH. destruct (test x); [|reflexivity].
    now rewrite <- app_assoc.
Qed.

Lemma truthy_false {A : Type} (l : list A) : truthy l = false <-> l = [].
Proof. destruct l; simpl; split; congruence. Qed.

Lemma truthy_true {A : Type} (l : list A) : truthy l = true <-> l <> [].
Proof. destruct l; simpl; split; congruence. Qed.

Lemma firstn_cap {A : Type} (n : nat) (l : list A) : length (firstn n l) <= n.
Proof. rewrite length_firstn. lia. Qed.

Lemma extract_signals_eq (unicode_lower : str -> str) (keywords : list str)
    (results : list SearchResult) :
  fold_left (extract_step unicode_lower keywords) results [] =
  map (fun r => signal_entry r (get (content r) []))
    (filter (fun r => check_signals unicode_lower (get (content r) []) keywords)
       results).
Proof.
  unfold extract_step, check_signals. cbv zeta.
  exact (fold_left_select _ _ results []).
Qed.

Lemma sentiment_data_eq (unicode_lower : str -> str) (results : list SearchResult) :
  fold_left (sentiment_step unicode_lower) results [] =
  map (fun r => sentiment_entry (get (title r) []) (get (content r) []))
    (filter (fun r => check_signals unicode_lower
                        (get (title r) [] ++ get (content r) []) sentiment_keywords)
       results).
Proof.
  unfold sentiment_step, check_signals. cbv zeta.
  exact (fold_left_select _ _ results []).
Qed.

(** ** search_and_extract_signals and its callers *)

(** C4. When the lower-cased content of at least one result holds a
    keyword, the answer is the heading with the prefix and the symbol,
    then the entries of the first two such results, in the order of the
    search, joined by line breaks; otherwise it is the prefix, the symbol
    and the default message.  An entry is the bullet, the title, and the
    first 200 code points of the content followed by three dots. *)
Theorem search_and_extract_signals_spec
    (web_search : str -> list SearchResult) (unicode_lower : str -> str)
    (stock_symbol query : str) (keywords : list str) (prefix default_msg : str) :
  let results := web_search query in
  let text r := get (content r) [] in
  let relevant r := mentions (lower unicode_lower) keywords (text r) in
  let entry r :=
    lit "• " ++ get (title r) (lit "News") ++ lit ": "
      ++ firstn 200 (text r) ++ lit "..." in
  let output :=
    search_and_extract_signals web_search unicode_lower
      stock_symbol query keywords prefix default_msg in
  ((exists r, In r results /\ relevant r) ->
     exists found,
       kept relevant results found /\
       output = prefix ++ lit " for " ++ stock_symbol ++ lit ":" ++ NL
                  ++ join NL (map entry (firstn 2 found))) /\
  (~ (exists r, In r results /\ relevant r) ->
     output = prefix ++ lit " " ++ stock_symbol ++ lit ": " ++ default_msg).
Proof.
  intros results text relevant entry output.
  set (found := filter (fun r => check_signals unicode_lower (text r) keywords) results).
  assert (Hkept : kept relevant results found).
  { apply kept_filter. intros r. apply check_signals_iff. }
  assert (Hout : output =
                 if truthy (map entry found)
                 then prefix ++ lit " for " ++ stock_symbol ++ lit ":" ++ NL
                        ++ join NL (firstn 2 (map entry found))
                 else prefix ++ lit " " ++ stock_symbol ++ lit ": " ++ default_msg).
  { subst output. unfold search_and_extract_signals. cbv zeta.
    now rewrite extract_signals_eq. }
  split.
  - intros Hsome. exists found. split; [assumption|].
    rewrite Hout, firstn_map.
    destruct found as [|r found']; [|reflexivity].
    exfalso. now apply (kept_none Hkept).
  - intros Hnone. apply (kept_none Hkept) in Hnone.
    rewrite Hout, Hnone. reflexivity.
Qed.

(** C6. When the search returns no result, the answer is the prefix, the
    symbol and the default message; the symbol occurs in it. *)
Theorem search_and_extract_signals_no_results
    (web_search : str -> list SearchResult) (unicode_lower : str -> str)
    (stock_symbol query : str) (keywords : list str) (prefix default_msg : str) :
  web_search query = [] ->
  search_and_extract_signals web_search unicode_lower
    stock_symbol query keywords prefix default_msg =
    prefix ++ lit " " ++ stock_symbol ++ lit ": " ++ default_msg /\
  occurs_in stock_symbol
    (search_and_extract_signals web_search unicode_lower
       stock_symbol query keywords prefix default_msg).
Proof.
  intros Hempty. unfold search_and_extract_signals. cbv zeta.
  rewrite Hempty. cbn [fold_left truthy]. split; [reflexivity|].
  exists (prefix ++ lit " "), (lit ": " ++ default_msg).
  now rewrite <- app_assoc.
Qed.

(** C8. For the symbol ACME, when the search answers the query of
    [find_positive_news] with the single result titled
    "ACME beats estimates", the answer starts with the heading for ACME
    and the entry of that result. *)
Theorem find_positive_news_acme
    (web_search : str -> list SearchResult) (unicode_lower : str -> str) :
  web_search
    (lit "ACME stock positive news earnings growth revenue profit upgrade") =
    [mkResult (Some (lit "ACME beats estimates"))
              (Some (lit "ACME reported strong profit growth this quarter..."))] ->
  startswith
    (lit "🐂 POSITIVE SIGNALS for ACME:" ++ NL
       ++ lit "• ACME beats estimates: ACME reported strong profit growth this quarter...")
    (find_positive_news web_search unicode_lower (lit "ACME")) = true /\
  find_positive_news web_search unicode_lower (lit "ACME") =
    lit "🐂 POSITIVE SIGNALS for ACME:" ++ NL
      ++ lit "• ACME beats estimates: ACME reported strong profit growth this quarter......".
Proof.
  intros Hsearch.
  assert (E : find_positive_news web_search unicode_lower (lit "ACME") =
              lit "🐂 POSITIVE SIGNALS for ACME:" ++ NL
                ++ lit "• ACME beats estimates: ACME reported strong profit growth this quarter......").
  { unfold find_positive_news, search_and_extract_signals. cbv zeta.
    replace (lit "ACME" ++ lit " stock positive news earnings growth revenue profit upgrade")
      with (lit "ACME stock positive news earnings growth revenue profit upgrade")
      by (vm_compute; reflexivity).
    rewrite Hsearch. vm_compute. reflexivity. }
  rewrite E. split; [vm_compute|]; reflexivity.
Qed.

(** C8, on a search client that answers every query with that result. *)
Lemma find_positive_news_acme_witness :
  (fun _ : str => [acme_result])
    (lit "ACME stock positive news earnings growth revenue profit upgrade") =
    [acme_result] /\
  startswith
    (lit "🐂 POSITIVE SIGNALS for ACME:" ++ NL
       ++ lit "• ACME beats estimates: ACME reported strong profit growth this quarter...")
    (find_positive_news (fun _ => [acme_result]) (fun s => s) (lit "ACME")) = true.
Proof.
  split; [reflexivity|].
  apply (find_positive_news_acme (fun _ => [acme_result]) (fun s => s)).
  reflexivity.
Defined.

(** C6, on a search client without results. *)
Lemma search_and_extract_signals_no_results_witness :
  (fun _ : str => @nil SearchResult) (lit "ACME stock") = [] /\
  search_and_extract_signals (fun _ => []) (fun s => s)
    (lit "ACME") (lit "ACME stock") [lit "profit"] (lit "SIGNALS") (lit "none") =
  lit "SIGNALS ACME: none".
Proof.
  split; [reflexivity|].
  apply (search_and_extract_signals_no_results
           (fun _ => []) (fun s => s)
           (lit "ACME") (lit "ACME stock") [lit "profit"] (lit "SIGNALS") (lit "none")).
  reflexivity.
Defined.

(** C5. Whatever the search returns, at most two entries are joined into
    the answer of [search_and_extract_signals], and at most three
    indicators into the answers of [calculate_growth_potential] and of
    [assess_market_risks]: each joins a capped prefix of what its loop
    collected. *)
Theorem signal_caps
    (web_search : str -> list SearchResult) (unicode_lower : str -> str)
    (unicode_digit unicode_space : codepoint -> bool)
    (stock_symbol query : str) (keywords : list str) (prefix default_msg : str) :
  let signals :=
    fold_left (extract_step unicode_lower keywords) (web_search query) [] in
  let growth_indicators :=
    fold_left (growth_step unicode_lower unicode_digit unicode_space)
      (web_search
         (stock_symbol
            ++ lit " stock price earnings revenue growth rate market cap")) [] in
  let risk_factors :=
    fold_left (risk_step unicode_lower unicode_digit unicode_space)
      (web_search
         (stock_symbol
            ++ lit " stock market risks volatility debt competition regulatory concerns")) [] in
  (exists joined,
     joined = firstn 2 signals /\ length joined <= 2 /\
     search_and_extract_signals web_search unicode_lower
       stock_symbol query keywords prefix default_msg =
       if truthy signals
       then prefix ++ lit " for " ++ stock_symbol ++ lit ":" ++ NL ++ join NL joined
       else prefix ++ lit " " ++ stock_symbol ++ lit ": " ++ default_msg) /\
  (exists joined,
     joined = firstn 3 growth_indicators /\ length joined <= 3 /\
     calculate_growth_potential web_search unicode_lower unicode_digit unicode_space
       stock_symbol =
       if truthy growth_indicators
       then lit "📈 GROWTH POTENTIAL for " ++ stock_symbol ++ lit ": "
              ++ join (lit ", ") joined
       else lit "📈 " ++ stock_symbol
              ++ lit ": Growth data limited, but could indicate overlooked opportunity!") /\
  (exists joined,
     joined = firstn 3 risk_factors /\ length joined <= 3 /\
     assess_market_risks web_search unicode_lower unicode_digit unicode_space
       stock_symbol =
       if truthy risk_factors
       then lit "⚠️ RISK ASSESSMENT for " ++ stock_symbol ++ lit ": "
              ++ join (lit ", ") joined
       else lit "⚠️ " ++ stock_symbol
              ++ lit ": Risk factors unclear - proceed with extreme caution!").
Proof.
  intros signals growth_indicators risk_factors.
  split; [|split]; eexists; (split; [reflexivity|]);
    (split; [apply firstn_cap | reflexivity]).
Qed.

Example signal_caps_three_hits :
  search_and_extract_signals
    (fun _ => [acme_result; acme_result; acme_result]) (fun s => s)
    (lit "ACME") (lit "ACME news") [lit "profit"] (lit "SIGNALS") (lit "none") =
  lit "SIGNALS for ACME:" ++ NL
    ++ lit "• ACME beats estimates: ACME reported strong profit growth this quarter......"
    ++ NL
    ++ lit "• ACME beats estimates: ACME reported strong profit growth this quarter......".
Proof. vm_compute. reflexivity. Qed.

(** ** get_current_market_sentiment *)

Lemma is_ascii_app (s t : str) :
  is_ascii (s ++ t) = is_ascii s && is_ascii t.
Proof. apply forallb_app. Qed.

Lemma lower_ascii (unicode_lower : str -> str) (s : str) :
  is_ascii s = true -> lower unicode_lower s = ascii_lower s.
Proof. intros H. unfold lower. now rewrite H. Qed.

Lemma occurs_in_app_l (w s t : str) : occurs_in w s -> occurs_in w (s ++ t).
Proof.
  intros [pre [post ->]]. exists pre, (post ++ t).
  now rewrite <- !app_assoc.
Qed.

(** C10. [get_current_market_sentiment] selects a result when the
    lower-cased concatenation of its title and its content holds one of
    price, trading, market, analyst; so a result of ASCII text whose title
    alone holds a keyword, in whatever case, is selected.  An entry is the
    bullet, the title, and the first 150 code points of the content
    followed by three dots; the entries of the first two selected results
    are joined, and without a selected result the answer is the default
    message. *)
Theorem get_current_market_sentiment_spec
    (web_search : str -> list SearchResult) (unicode_lower : str -> str)
    (stock_symbol : str) :
  let results :=
    web_search
      (stock_symbol
         ++ lit " stock current price today market sentiment analyst rating") in
  let heading r := get (title r) [] in
  let text r := get (content r) [] in
  let keywords := [lit "price"; lit "trading"; lit "market"; lit "analyst"] in
  let relevant r :=
    mentions (lower unicode_lower) keywords (heading r ++ text r) in
  let entry r :=
    lit "• " ++ heading r ++ lit ": " ++ firstn 150 (text r) ++ lit "..." in
  let output := get_current_market_sentiment web_search unicode_lower stock_symbol in
  exists found,
    kept relevant results found /\
    length (firstn 2 found) <= 2 /\
    (found <> [] ->
       output = lit "📊 CURRENT MARKET DATA for " ++ stock_symbol ++ lit ":" ++ NL
                  ++ join NL (map entry (firstn 2 found))) /\
    (found = [] ->
       output = lit "📊 CURRENT MARKET DATA " ++ stock_symbol
                  ++ lit ": Market data limited - need more information for decision") /\
    (forall r,
       In r results ->
       is_ascii (heading r) = true -> is_ascii (text r) = true ->
       (exists word, In word keywords /\ occurs_in word (ascii_lower (heading r))) ->
       In r found).
Proof.
  intros results heading text keywords relevant entry output.
  set (found := filter (fun r => check_signals unicode_lower
                                   (heading r ++ text r) sentiment_keywords) results).
  assert (Hkept : kept relevant results found).
  { apply kept_filter. intros r. apply check_signals_iff. }
  assert (Hout : output =
                 if truthy (map entry found)
                 then (lit "📊 CURRENT MARKET DATA" ++ lit " for ") ++ stock_symbol
                        ++ lit ":" ++ NL ++ join NL (firstn 2 (map entry found))
                 else (lit "📊 CURRENT MARKET DATA" ++ lit " ") ++ stock_symbol
                        ++ lit ": "
                        ++ lit "Market data limited - need more information for decision").
  { subst output. unfold get_current_market_sentiment. cbv zeta.
    rewrite sentiment_data_eq. fold results. fold found.
    now rewrite <- !app_assoc. }
  exists found. split; [assumption|]. split; [apply firstn_cap|].
  split; [|split].
  - intros Hne. rewrite Hout, firstn_map.
    destruct found as [|r found']; [congruence|]. vm_compute. reflexivity.
  - intros Hnil. rewrite Hout, Hnil. vm_compute. reflexivity.
  - intros r Hin Hh Ht [word [Hword Hocc]].
    apply (kept_In Hkept). split; [assumption|].
    exists word. split; [assumption|].
    rewrite lower_ascii by (rewrite is_ascii_app, Hh, Ht; reflexivity).
    unfold ascii_lower. rewrite map_app. now apply occurs_in_app_l.
Qed.

(** A keyword in the title alone: the generic extractor, given the same
    keywords, reports nothing where the sentiment tool selects the result. *)
Example sentiment_reads_the_title :
  let result := mkResult (Some (lit "Market wrap")) (Some (lit "Shares were flat.")) in
  get_current_market_sentiment (fun _ => [result]) (fun s => s) (lit "ACME") =
    lit "📊 CURRENT MARKET DATA for ACME:" ++ NL
      ++ lit "• Market wrap: Shares were flat...." /\
  search_and_extract_signals (fun _ => [result]) (fun s => s)
    (lit "ACME") (lit "ACME stock") sentiment_keywords
    (lit "📊 CURRENT MARKET DATA")
    (lit "Market data limited - need more information for decision") =
    lit "📊 CURRENT MARKET DATA ACME: Market data limited - need more information for decision".
Proof. split; vm_compute; reflexivity. Qed.

(** ** The matcher against the relation [matches] *)

Section MatcherProofs.
Variable R : Type.

Lemma orelse_some (x y : option R) (v : R) :
  orelse x y = Some v -> x = Some v \/ (x = None /\ y = Some v).
Proof. destruct x; simpl; auto. Qed.

Lemma orelse_not_none_l (x y : option R) : x <> None -> orelse x y <> None.
Proof. destruct x; simpl; congruence. Qed.

Lemma orelse_not_none_r (x y : option R) : y <> None -> orelse x y <> None.
Proof. destruct x; simpl; congruence. Qed.

Lemma star_loop_sound (a : regex) (step : cont R -> cont R) :
  sound_step a step ->
  forall fuel, sound_step (Star a) (fun k => star_loop step k fuel).
Proof.
  intros Hstep fuel. induction fuel as [|fuel IH]; intros k s g x H; simpl in H.
  - exists [], s, g. repeat split; [constructor | assumption].
  - apply orelse_some in H. destruct H as [H | [_ H]].
    + apply Hstep in H. destruct H as [w1 [s1 [g1 [-> [Hw1 H]]]]].
      destruct (length s1 <? length (w1 ++ s1)); [|discriminate].
      apply IH in H. destruct H as [w2 [s2 [g2 [-> [Hw2 H]]]]].
      exists (w1 ++ w2), s2, g2. repeat split.
      * now rewrite app_assoc.
      * econstructor; eassumption.
      * assumption.
    + exists [], s, g. repeat split; [constructor | assumption].
Qed.

Lemma rmatch_sound (r : regex) : sound_step r (rmatch (R := R) r).
Proof.
  induction r as [p | a IHa b IHb | a IHa | a IHa | a IHa]; intros k s g x H;
    cbn [rmatch] in H.
  - destruct s as [|c s]; [discriminate|].
    destruct (p c) eqn:Hp; [|discriminate].
    exists [c], s, g. repeat split; [now constructor | assumption].
  - apply IHa in H. destruct H as [w1 [s1 [g1 [-> [Hw1 H]]]]].
    apply IHb in H. destruct H as [w2 [s2 [g2 [-> [Hw2 H]]]]].
    exists (w1 ++ w2), s2, g2. repeat split.
    + now rewrite app_assoc.
    + econstructor; eassumption.
    + assumption.
  - apply orelse_some in H. destruct H as [H | [_ H]].
    + apply IHa in H. destruct H as [w [s' [g' [-> [Hw H]]]]].
      exists w, s', g'. repeat split; [now apply matches_opt_take | assumption].
    + exists [], s, g. repeat split; [constructor | assumption].
  - now apply (star_loop_sound IHa) in H.
  - apply IHa in H. destruct H as [w [s' [g' [-> [Hw H]]]]].
    exists w, s', (Some w). repeat split; [now apply matches_grp with g'|].
    rewrite length_app, Nat.add_sub, firstn_app, Nat.sub_diag, firstn_all in H.
    now rewrite firstn_O, app_nil_r in H.
Qed.

Lemma matches_star_cases (a : regex) (w : str) (g g' : option str) :
  matches (Star a) w g g' ->
  w = [] \/
  exists w1 w2 g1 g2 g3 g4,
    w = w1 ++ w2 /\ w1 <> [] /\ matches a w1 g1 g2 /\ matches (Star a) w2 g3 g4.
Proof.
  intros H. remember (Star a) as r eqn:Er.
  induction H as [| | | | |b w1 w2 g g1 g2 H1 _ H2 IH2|]; try discriminate.
  - now left.
  - injection Er as ->. destruct w1 as [|c w1].
    + simpl. now apply IH2.
    + right. exists (c :: w1), w2, g, g1, g1, g2.
      repeat split; [discriminate | assumption | assumption].
Qed.

Lemma star_loop_complete (a : regex) (step : cont R -> cont R) :
  complete_step a step ->
  forall fuel k w s' g0 g0',
    length (w ++ s') <= fuel ->
    matches (Star a) w g0 g0' -> accepts k s' ->
    accepts (fun s g => star_loop step k fuel s g) (w ++ s').
Proof.
  intros Hstep fuel. induction fuel as [|fuel IH];
    intros k w s' g0 g0' Hlen Hw Hk g; simpl.
  - destruct w; simpl in Hlen; [apply Hk | lia].
  - apply matches_star_cases in Hw.
    destruct Hw as [-> | [w1 [w2 [g1 [g2 [g3 [g4 [-> [Hne [H1 H2]]]]]]]]]].
    + apply orelse_not_none_r. apply Hk.
    + apply orelse_not_none_l. rewrite <- app_assoc.
      apply (Hstep _ w1 (w2 ++ s') g1 g2 H1). intros g'.
      assert (Hshort : length (w2 ++ s') < length (w1 ++ w2 ++ s')).
      { rewrite (length_app w1). destruct w1; [congruence | simpl; lia]. }
      apply Nat.ltb_lt in Hshort. rewrite Hshort.
      apply (IH k w2 s' g3 g4); [|assumption|assumption].
      rewrite <- app_assoc in Hlen. apply Nat.ltb_lt in Hshort. lia.
Qed.

Lemma rmatch_complete (r : regex) : complete_step r (rmatch (R := R) r).
Proof.
  induction r as [p | a IHa b IHb | a IHa | a IHa | a IHa];
    intros k w s' g0 g0' Hw Hk g; cbn [rmatch].
  - inversion Hw; subst. simpl. rewrite H0. apply Hk.
  - inversion Hw; subst. rewrite <- app_assoc.
    eapply IHa; [eassumption|]. intros g'. eapply IHb; eassumption.
  - inversion Hw; subst.
    + apply orelse_not_none_r. apply Hk.
    + apply orelse_not_none_l. eapply IHa; eassumption.
  - eapply (star_loop_complete IHa); [apply Nat.le_refl | eassumption | assumption].
  - inversion Hw; subst. eapply IHa; [eassumption|].
    intros g1. apply Hk.
Qed.
Lemma star_loop_local (step : cont R -> cont R) :
  local_step step -> forall fuel, local_step (fun k => star_loop step k fuel).
Proof.
  intros Hstep fuel. induction fuel as [|fuel IH]; intros k1 k2 s g Hk; simpl.
  - now apply Hk.
  - rewrite (Hk s g) by apply Nat.le_refl. f_equal.
    apply Hstep. intros s' g' Hlen.
    destruct (length s' <? length s) eqn:E; [|reflexivity].
    apply IH. intros s2 g2 Hlen2. apply Hk. lia.
Qed.

Lemma rmatch_local (r : regex) : local_step (rmatch (R := R) r).
Proof.
  induction r as [p | a IHa b IHb | a IHa | a IHa | a IHa]; intros k1 k2 s g Hk;
    cbn [rmatch].
  - destruct s as [|c s]; [reflexivity|].
    destruct (p c); [|reflexivity]. apply Hk. simpl. lia.
  - apply IHa. intros s' g' Hlen. apply IHb.
    intros s2 g2 Hlen2. apply Hk. lia.
  - rewrite (Hk s g) by apply Nat.le_refl. f_equal. now apply IHa.
  - now apply (star_loop_local IHa).
  - apply IHa. intros s' g' Hlen. now apply Hk.
Qed.

Lemma rmatch_needs_continuation (r : regex) (s : str) (g : option str) :
  rmatch (R := R) r (fun _ _ => None) s g = None.
Proof.
  destruct (rmatch r (fun _ _ => None) s g) as [x|] eqn:E; [|reflexivity].
  apply rmatch_sound in E. destruct E as [w [s' [g' [_ [_ H]]]]]. discriminate.
Qed.

(** The fuel of a loop is never what ends it: any fuel that covers the
    text gives the same result. *)
Lemma star_loop_fuel (a : regex) (k : cont R) :
  forall fuel fuel' s g,
    length s <= fuel -> length s <= fuel' ->
    star_loop (rmatch a) k fuel s g = star_loop (rmatch a) k fuel' s g.
Proof.
  assert (Hempty : forall fuel g,
             star_loop (rmatch a) k fuel [] g = k [] g).
  { intros [|fuel] g; simpl; [reflexivity|].
    rewrite (rmatch_local a _ (fun _ _ => None)).
    - now rewrite rmatch_needs_continuation.
    - intros s' g' _. reflexivity. }
  induction fuel as [|fuel IH]; intros fuel' s g Hlen Hlen'.
  - destruct s; [|simpl in Hlen; lia]. now rewrite !Hempty.
  - destruct fuel' as [|fuel'].
    + destruct s; [|simpl in Hlen'; lia]. now rewrite !Hempty.
    + simpl. f_equal. apply rmatch_local. intros s' g' _.
      destruct (length s' <? length s) eqn:E; [|reflexivity].
      apply Nat.ltb_lt in E. apply IH; lia.
Qed.
End MatcherProofs.

(** ** findall *)

Lemma match_here_sound (r : regex) (s g rest : str) :
  match_here r s = Some (g, rest) ->
  exists w g', s = w ++ rest /\ matches r w None g' /\ g = get g' [].
Proof.
  unfold match_here. intros H. apply rmatch_sound in H.
  destruct H as [w [s' [g' [-> [Hw H]]]]]. injection H as <- <-.
  now exists w, g'.
Qed.

Lemma match_here_complete (r : regex) (w rest : str) (g0 g0' : option str) :
  matches r w g0 g0' -> match_here r (w ++ rest) <> None.
Proof.
  intros Hw. unfold match_here.
  apply (rmatch_complete (R := str * str) Hw). intros g. discriminate.
Qed.

(** Every element of the result is the group of a match that starts
    somewhere in the text. *)
Lemma findall_from_sound (r : regex) (s : str) :
  forall skip g,
    In g (findall_from r skip s) ->
    exists pre suf rest, s = pre ++ suf /\ match_here r suf = Some (g, rest).
Proof.
  induction s as [|c s IH]; intros skip g Hin.
  - destruct skip; simpl in Hin; [|contradiction].
    destruct (match_here r []) as [[g0 rest]|] eqn:E; [|contradiction].
    destruct Hin as [<-|[]]. now exists [], [], rest.
  - assert (Htail : forall n, In g (findall_from r n s) ->
                      exists pre suf rest,
                        c :: s = pre ++ suf /\ match_here r suf = Some (g, rest)).
    { intros n Hn. apply IH in Hn. destruct Hn as [pre [suf [rest [-> Hm]]]].
      now exists (c :: pre), suf, rest. }
    destruct skip; cbn [findall_from] in Hin; [|now apply Htail in Hin].
    destruct (match_here r (c :: s)) as [[g0 rest]|] eqn:E.
    + destruct Hin as [<-|Hin]; [now exists [], (c :: s), rest | now apply Htail in Hin].
    + now apply Htail in Hin.
Qed.

(** A match anywhere in the text leaves the result non-empty. *)
Lemma findall_not_nil (r : regex) (s : str) :
  (exists pre suf, s = pre ++ suf /\ match_here r suf <> None) ->
  findall r s <> [].
Proof.
  unfold findall. induction s as [|c s IH]; intros [pre [suf [Hs Hm]]].
  - destruct pre; [|discriminate]. simpl in Hs. subst suf. simpl.
    destruct (match_here r []) as [[g rest]|]; [discriminate | congruence].
  - cbn [findall_from].
    destruct (match_here r (c :: s)) as [[g rest]|] eqn:E; [discriminate|].
    destruct pre as [|c' pre]; simpl in Hs.
    + subst suf. congruence.
    + injection Hs as _ ->. apply IH. now exists pre, suf.
Qed.

(** ** The percentage pattern *)

Lemma matches_class_star (p : codepoint -> bool) (w : str) (g g' : option str) :
  matches (Star (Cls p)) w g g' -> g' = g /\ Forall (fun c => p c = true) w.
Proof.
  intros H. remember (Star (Cls p)) as r eqn:Er.
  induction H as [| | | | |b w1 w2 g g1 g2 H1 _ H2 IH2|]; try discriminate.
  - split; [reflexivity | constructor].
  - injection Er as ->. inversion H1; subst.
    destruct (IH2 eq_refl) as [-> Hall].
    split; [reflexivity | now constructor].
Qed.

Lemma class_star_matches (p : codepoint -> bool) (w : str) (g : option str) :
  Forall (fun c => p c = true) w -> matches (Star (Cls p)) w g g.
Proof.
  induction 1 as [|c w Hc _ IH]; [constructor|].
  change (c :: w) with ([c] ++ w).
  eapply matches_star_more; [now constructor | exact IH].
Qed.

Lemma matches_class_plus (p : codepoint -> bool) (w : str) (g g' : option str) :
  matches (Plus (Cls p)) w g g' -> g' = g /\ digits p w.
Proof.
  unfold Plus. intros H. inversion H as [|a b w1 w2 g0 g1 g2 H1 H2| | | | |]; subst.
  inversion H1; subst. apply matches_class_star in H2. destruct H2 as [-> Hall].
  split; [reflexivity|]. split; [discriminate | now constructor].
Qed.

Lemma class_plus_matches (p : codepoint -> bool) (w : str) (g : option str) :
  digits p w -> matches (Plus (Cls p)) w g g.
Proof.
  intros [Hne Hall]. destruct w as [|c w]; [congruence|].
  inversion Hall; subst. change (c :: w) with ([c] ++ w).
  unfold Plus. eapply matches_cat; [now constructor | now apply class_star_matches].
Qed.

Lemma matches_chr (c : codepoint) (w : str) (g g' : option str) :
  matches (Chr c) w g g' -> g' = g /\ w = [c].
Proof.
  unfold Chr. intros H. inversion H as [p d g0 Hd| | | | | |]; subst.
  apply N.eqb_eq in Hd. now subst d.
Qed.

Lemma chr_matches (c : codepoint) (g : option str) : matches (Chr c) [c] g g.
Proof. unfold Chr. constructor. apply N.eqb_refl. Qed.

Lemma matches_number_re (unicode_digit : codepoint -> bool)
    (w : str) (g g' : option str) :
  matches (number_re unicode_digit) w g g' ->
  g' = g /\ number (is_digit unicode_digit) w.
Proof.
  unfold number_re. intros H.
  inversion H as [|a b w1 w2 g0 g1 g2 H1 H2| | | | |]; subst.
  apply matches_class_plus in H1. destruct H1 as [-> Hwhole].
  inversion H2 as [| |a g0|a w0 g0 g1 H3| | |]; subst.
  - split; [reflexivity|]. exists w1, []. auto.
  - inversion H3 as [|a b w3 w4 g0 g1 g3 H4 H5| | | | |]; subst.
    apply matches_chr in H4. destruct H4 as [-> ->].
    apply matches_class_plus in H5. destruct H5 as [-> Hfrac].
    split; [reflexivity|]. exists w1, ([46%N] ++ w4).
    split; [reflexivity|]. split; [assumption|]. right. now exists w4.
Qed.

Lemma number_re_matches (unicode_digit : codepoint -> bool)
    (w : str) (g : option str) :
  number (is_digit unicode_digit) w -> matches (number_re unicode_digit) w g g.
Proof.
  intros [whole [fraction [-> [Hwhole Hfrac]]]]. unfold number_re.
  eapply matches_cat; [now apply class_plus_matches|].
  destruct Hfrac as [-> | [d [-> Hd]]]; [constructor|].
  apply matches_opt_take.
  eapply matches_cat; [apply chr_matches | now apply class_plus_matches].
Qed.

Lemma matches_percent_re (unicode_digit unicode_space : codepoint -> bool)
    (w : str) (g g' : option str) :
  matches (percent_re unicode_digit unicode_space) w g g' ->
  exists p ws,
    w = p ++ ws ++ lit "%" /\ g' = Some p /\
    number (is_digit unicode_digit) p /\ blanks (is_space unicode_space) ws.
Proof.
  unfold percent_re. intros H.
  inversion H as [|a b w1 w2 g0 g1 g2 H1 H2| | | | |]; subst.
  inversion H1 as [| | | | | |a w0 g0 g3 H3]; subst.
  apply matches_number_re in H3. destruct H3 as [_ Hnum].
  inversion H2 as [|a b w3 w4 g0 g1 g4 H4 H5| | | | |]; subst.
  apply matches_class_star in H4. destruct H4 as [-> Hws].
  apply matches_chr in H5. destruct H5 as [-> ->].
  now exists w1, w3.
Qed.

Lemma percent_re_matches (unicode_digit unicode_space : codepoint -> bool)
    (p ws : str) (g : option str) :
  number (is_digit unicode_digit) p -> blanks (is_space unicode_space) ws ->
  matches (percent_re unicode_digit unicode_space) (p ++ ws ++ lit "%") g (Some p).
Proof.
  intros Hnum Hws. unfold percent_re.
  eapply matches_cat.
  - eapply matches_grp. now apply number_re_matches.
  - eapply matches_cat; [now apply class_star_matches | apply chr_matches].
Qed.

Lemma growth_step_eq (unicode_lower : str -> str)
    (unicode_digit unicode_space : codepoint -> bool)
    (growth_indicators : list str) (result : SearchResult) :
  let text := lower unicode_lower (get (content result) []) in
  growth_step unicode_lower unicode_digit unicode_space growth_indicators result =
  growth_indicators
    ++ map (fun p => p ++ lit "%")
         (firstn 3 (findall (percent_re unicode_digit unicode_space) text))
    ++ (if any (fun term => str_in term text) growth_terms
        then [lit "Positive trend detected"] else []).
Proof.
  intros text. unfold growth_step. cbv zeta. fold text.
  destruct (findall (percent_re unicode_digit unicode_space) text) as [|p ps];
    cbn [truthy];
    destruct (any (fun term => str_in term text) growth_terms);
    cbn [firstn map app]; rewrite <- ?app_assoc, ?app_nil_r; reflexivity.
Qed.

(** *** The percentages are the matches, from left to right *)

Lemma skipn_length_app {A : Type} (l1 l2 : list A) : skipn (length l1) (l1 ++ l2) = l2.
Proof. induction l1 as [|x l1 IH]; [reflexivity | exact IH]. Qed.

Lemma findall_from_skip (r : regex) :
  forall skip s, skip <= length s -> findall_from r skip s = findall r (skipn skip s).
Proof.
  induction skip as [|skip IH]; intros s Hlen; [reflexivity|].
  destruct s as [|c s]; [simpl in Hlen; lia|].
  cbn [findall_from skipn]. apply IH. simpl in Hlen. lia.
Qed.

(** After a match the search goes on with what follows it. *)
Lemma findall_hit (r : regex) (w rest g : str) :
  w <> [] ->
  match_here r (w ++ rest) = Some (g, rest) ->
  findall r (w ++ rest) = g :: findall r rest.
Proof.
  intros Hne Hm. destruct w as [|c w]; [congruence|].
  unfold findall at 1. cbn [app findall_from]. cbn [app] in Hm. rewrite Hm.
  f_equal.
  replace (length (c :: w ++ rest) - length rest - 1) with (length w)
    by (cbn [length]; rewrite length_app; lia).
  rewrite findall_from_skip by (rewrite length_app; lia).
  now rewrite skipn_length_app.
Qed.

(** Without a match the search moves on by one code point. *)
Lemma findall_miss (r : regex) (c : codepoint) (s : str) :
  match_here r (c :: s) = None -> findall r (c :: s) = findall r s.
Proof. intros Hm. unfold findall. cbn [findall_from]. now rewrite Hm. Qed.

Lemma match_here_percent (unicode_digit unicode_space : codepoint -> bool)
    (text g rest : str) :
  match_here (percent_re unicode_digit unicode_space) text = Some (g, rest) ->
  percent_here (is_digit unicode_digit) (is_space unicode_space) text g rest /\
  exists w, w <> [] /\ text = w ++ rest.
Proof.
  intros Hm. apply match_here_sound in Hm. destruct Hm as [w [g' [-> [Hw ->]]]].
  apply matches_percent_re in Hw.
  destruct Hw as [p [ws [-> [-> [Hnum Hws]]]]]. cbn [get]. split.
  - exists ws. split; [now rewrite <- !app_assoc | now split].
  - exists (p ++ ws ++ lit "%"). split; [|reflexivity].
    intros E. apply app_eq_nil in E. destruct E as [_ E].
    apply app_eq_nil in E. destruct E as [_ E]. discriminate E.
Qed.

Lemma percent_here_match (unicode_digit unicode_space : codepoint -> bool)
    (text p rest : str) :
  percent_here (is_digit unicode_digit) (is_space unicode_space) text p rest ->
  match_here (percent_re unicode_digit unicode_space) text <> None.
Proof.
  intros [ws [-> [Hnum Hws]]].
  replace (p ++ ws ++ lit "%" ++ rest) with ((p ++ ws ++ lit "%") ++ rest)
    by now rewrite <- !app_assoc.
  eapply match_here_complete with (g0 := None). now apply percent_re_matches.
Qed.

Lemma findall_percent_scan (unicode_digit unicode_space : codepoint -> bool) :
  forall n text,
    length text <= n ->
    percent_scan (is_digit unicode_digit) (is_space unicode_space) text
      (findall (percent_re unicode_digit unicode_space) text).
Proof.
  induction n as [|n IH]; intros text Hlen.
  - destruct text; [|simpl in Hlen; lia].
    replace (findall (percent_re unicode_digit unicode_space) []) with (@nil str)
      by reflexivity.
    constructor.
  - destruct (match_here (percent_re unicode_digit unicode_space) text)
      as [[g rest]|] eqn:Hm.
    + destruct (@match_here_percent _ _ _ _ _ Hm) as [Hhere [w [Hne ->]]].
      rewrite (@findall_hit _ _ _ _ Hne Hm).
      apply percent_scan_hit with (rest := rest); [assumption|].
      apply IH. rewrite length_app in Hlen.
      destruct w; [congruence | simpl in Hlen; lia].
    + destruct text as [|c text].
      * replace (findall (percent_re unicode_digit unicode_space) []) with (@nil str)
          by reflexivity.
        constructor.
      * rewrite (@findall_miss _ _ _ Hm). apply percent_scan_skip.
        -- intros p rest Hhere. apply percent_here_match in Hhere. congruence.
        -- apply IH. simpl in Hlen. lia.
Qed.

(** Two runs of a class that end before a code point outside it, in the
    same text, are the same run. *)
Lemma run_unique (P : codepoint -> bool) :
  forall a a' x x' r r',
    Forall (fun c => P c = true) a -> Forall (fun c => P c = true) a' ->
    P x = false -> P x' = false ->
    a ++ x :: r = a' ++ x' :: r' ->
    a = a' /\ x :: r = x' :: r'.
Proof.
  induction a as [|c a IH]; intros a' x x' r r' Ha Ha' Hx Hx' E.
  - destruct a' as [|c' a']; [now split|].
    simpl in E. injection E as -> _. inversion Ha'; subst. congruence.
  - destruct a' as [|c' a'].
    + simpl in E. injection E as -> _. inversion Ha; subst. congruence.
    + simpl in E. injection E as -> E. inversion Ha; inversion Ha'; subst.
      destruct (IH a' x x' r r') as [-> Hr]; auto.
Qed.

Section PercentUnique.
Variable unicode_digit unicode_space : codepoint -> bool.
Let digit := is_digit unicode_digit.
Let space := is_space unicode_space.
Hypothesis Hdisjoint : disjoint_classes digit space.

Lemma blanks_then_percent_head (ws rest : str) :
  blanks space ws ->
  exists x r, ws ++ lit "%" ++ rest = x :: r /\ digit x = false.
Proof.
  intros Hws. destruct ws as [|c ws].
  - exists 37%N, rest. split; reflexivity.
  - exists c, (ws ++ lit "%" ++ rest). split; [reflexivity|].
    inversion Hws; subst.
    destruct (digit c) eqn:E; [|reflexivity].
    apply Hdisjoint in E. congruence.
Qed.

Lemma blanks_then_percent_unique (ws ws' rest rest' : str) :
  blanks space ws -> blanks space ws' ->
  ws ++ lit "%" ++ rest = ws' ++ lit "%" ++ rest' ->
  ws = ws' /\ rest = rest'.
Proof.
  intros Hws Hws' E.
  destruct (@run_unique space ws ws' 37%N 37%N rest rest') as [-> Hr];
    try assumption; try reflexivity.
  split; [reflexivity | now injection Hr].
Qed.

Lemma digits_then_blanks_unique (d d' ws ws' rest rest' : str) :
  digits digit d -> digits digit d' -> blanks space ws -> blanks space ws' ->
  d ++ ws ++ lit "%" ++ rest = d' ++ ws' ++ lit "%" ++ rest' ->
  d = d' /\ ws = ws' /\ rest = rest'.
Proof.
  intros [_ Hd] [_ Hd'] Hws Hws' E.
  destruct (@blanks_then_percent_head ws rest Hws) as [x [r [Ex Hx]]].
  destruct (@blanks_then_percent_head ws' rest' Hws') as [x' [r' [Ex' Hx']]].
  rewrite Ex, Ex' in E.
  destruct (@run_unique digit d d' x x' r r') as [-> Hr]; try assumption.
  split; [reflexivity|].
  rewrite <- Ex, <- Ex' in Hr. now apply blanks_then_percent_unique.
Qed.

(** A text starts with at most one match. *)
Lemma percent_here_unique (text p p' rest rest' : str) :
  percent_here digit space text p rest ->
  percent_here digit space text p' rest' ->
  p = p' /\ rest = rest'.
Proof.
  intros [ws [E [[w [f [-> [Hw Hf]]]] Hws]]]
         [ws' [E' [[w' [f' [-> [Hw' Hf']]]] Hws']]].
  rewrite E in E'. clear E. rewrite <- !app_assoc in E'.
  assert (Hdot : digit 46%N = false) by reflexivity.
  assert (Hhead : forall f ws rest,
             (f = [] \/ exists d, f = lit "." ++ d /\ digits digit d) ->
             blanks space ws ->
             exists x r, f ++ ws ++ lit "%" ++ rest = x :: r /\ digit x = false).
  { intros f0 ws0 rest0 [-> | [d [-> _]]] Hws0.
    - now apply blanks_then_percent_head.
    - exists 46%N, (d ++ ws0 ++ lit "%" ++ rest0). split; reflexivity. }
  destruct (Hhead f ws rest Hf Hws) as [x [r [Ex Hx]]].
  destruct (Hhead f' ws' rest' Hf' Hws') as [x' [r' [Ex' Hx']]].
  rewrite Ex, Ex' in E'.
  destruct (@run_unique digit w w' x x' r r') as [-> Hr];
    try assumption; try apply Hw; try apply Hw'.
  rewrite <- Ex, <- Ex' in Hr. clear Ex Ex' Hx Hx' x x' r r' E'.
  assert (Hspace_dot : space 46%N = false) by reflexivity.
  destruct Hf as [-> | [d [-> Hd]]]; destruct Hf' as [-> | [d' [-> Hd']]].
  - cbn [app] in Hr. apply blanks_then_percent_unique in Hr; try assumption.
    destruct Hr as [_ ->]. now split.
  - exfalso. cbn [app] in Hr.
    destruct ws as [|c ws]; [discriminate Hr|].
    injection Hr as -> _. inversion Hws; subst. congruence.
  - exfalso. cbn [app] in Hr.
    destruct ws' as [|c ws']; [discriminate Hr|].
    injection Hr as <- _. inversion Hws'; subst. congruence.
  - rewrite <- !app_assoc in Hr. injection Hr as Hr.
    apply digits_then_blanks_unique in Hr; try assumption.
    destruct Hr as [-> [_ ->]]. now split.
Qed.

Lemma percent_scan_unique (text : str) (tokens tokens' : list str) :
  percent_scan digit space text tokens ->
  percent_scan digit space text tokens' ->
  tokens = tokens'.
Proof.
  intros H. revert tokens'.
  induction H as [|text p rest tokens Hhere _ IH|c text tokens Hnone _ IH];
    intros tokens' H'.
  - inversion H' as [|text0 p' rest' tokens0 Hhere' Hrest'|]; subst; [reflexivity|].
    destruct Hhere' as [ws [E _]]. symmetry in E.
    apply app_eq_nil in E. destruct E as [_ E].
    apply app_eq_nil in E. destruct E as [_ E]. discriminate E.
  - inversion H' as [|text0 p' rest' tokens0 Hhere' Hrest'
                      |c text0 tokens0 Hnone' Hrest']; subst.
    + destruct Hhere as [ws [E _]]. symmetry in E.
      apply app_eq_nil in E. destruct E as [_ E].
      apply app_eq_nil in E. destruct E as [_ E]. discriminate E.
    + destruct (@percent_here_unique _ _ _ _ _ Hhere Hhere') as [-> ->].
      f_equal. now apply IH.
    + exfalso. now apply (Hnone' p rest).
  - inversion H' as [|text0 p' rest' tokens0 Hhere' Hrest'
                      |c0 text0 tokens0 Hnone' Hrest']; subst.
    + exfalso. now apply (Hnone p' rest').
    + now apply IH.
Qed.
End PercentUnique.

Lemma ascii_classes_disjoint :
  disjoint_classes (is_digit (fun _ => false)) (is_space (fun _ => false)).
Proof.
  intros c. unfold is_digit, is_space, ascii_digit, ascii_space.
  destruct (c <? 128)%N; [|discriminate].
  intros H. apply andb_true_iff in H. destruct H as [H1 H2].
  apply N.leb_le in H1. apply N.leb_le in H2.
  apply orb_false_iff. split; [apply orb_false_iff; split|].
  - apply N.eqb_neq. lia.
  - apply andb_false_iff. right. apply N.leb_gt. lia.
  - apply andb_false_iff. right. apply N.leb_gt. lia.
Qed.

(** C3, as amended.  The percentages found in a text are the matches of
    the pattern made of a number (one or more digits with an optional
    decimal fraction), white space, possibly none, and a percent sign:
    scanning from the left, wherever the text starts with such a match
    its number is found and the scan goes on after the percent sign, and
    elsewhere the scan moves on by one code point.  No digit being white
    space, these matches are unique, so the percentages found are exactly
    them.  In particular each percentage stands in the text before white
    space and a percent sign, and one is found as soon as the text holds
    such a number.  For each result [calculate_growth_potential] adds the
    first three found in the lower-cased content, each with a percent
    sign appended, before its trend note. *)
Theorem percentages_spec
    (unicode_lower : str -> str) (unicode_digit unicode_space : codepoint -> bool)
    (text : str) :
  let digit := is_digit unicode_digit in
  let space := is_space unicode_space in
  let percentages := findall (percent_re unicode_digit unicode_space) text in
  percent_scan digit space text percentages /\
  (disjoint_classes digit space ->
   forall tokens, percent_scan digit space text tokens <-> tokens = percentages) /\
  (forall p, In p percentages -> percent_follows digit space text p) /\
  ((exists p, percent_follows digit space text p) -> percentages <> []) /\
  (forall (growth_indicators : list str) (result : SearchResult),
     let content := lower unicode_lower (get (content result) []) in
     growth_step unicode_lower unicode_digit unicode_space
       growth_indicators result =
     growth_indicators
       ++ map (fun p => p ++ lit "%")
            (firstn 3 (findall (percent_re unicode_digit unicode_space) content))
       ++ (if any (fun term => str_in term content)
                [lit "increase"; lit "growth"; lit "up"; lit "higher"; lit "rose";
                 lit "gained"]
           then [lit "Positive trend detected"] else [])).
Proof.
  intros digit space percentages.
  assert (Hscan : percent_scan digit space text percentages)
    by (apply findall_percent_scan with (n := length text); apply Nat.le_refl).
  split; [exact Hscan|]. split; [|split; [|split]].
  - intros Hdisjoint tokens. split.
    + intros H. exact (@percent_scan_unique _ _ Hdisjoint _ _ _ H Hscan).
    + intros ->. exact Hscan.
  - intros p Hin. apply findall_from_sound in Hin.
    destruct Hin as [pre [suf [rest [-> Hm]]]].
    apply match_here_sound in Hm. destruct Hm as [w [g' [-> [Hw ->]]]].
    apply matches_percent_re in Hw.
    destruct Hw as [p' [ws [-> [-> [Hnum Hws]]]]].
    exists pre, ws, rest. cbn [get].
    split; [now rewrite <- !app_assoc | now split].
  - intros [p [pre [ws [post [-> [Hnum Hws]]]]]].
    apply findall_not_nil. exists pre, (p ++ ws ++ lit "%" ++ post).
    split; [reflexivity|].
    replace (p ++ ws ++ lit "%" ++ post) with ((p ++ ws ++ lit "%") ++ post)
      by now rewrite <- !app_assoc.
    eapply match_here_complete with (g0 := None). now apply percent_re_matches.
  - intros growth_indicators result. apply growth_step_eq.
Qed.

(** Several percentages in one text, and a number with its fraction. *)
Example percentages_left_to_right
    (unicode_digit unicode_space : codepoint -> bool) :
  findall (percent_re unicode_digit unicode_space) (lit "5% and 7%") =
    [lit "5"; lit "7"] /\
  findall (percent_re unicode_digit unicode_space) (lit "up 12.5%") = [lit "12.5"] /\
  findall (percent_re unicode_digit unicode_space) (lit "5.6.7 % or 8 9%") =
    [lit "6.7"; lit "9"].
Proof. repeat split; vm_compute; reflexivity. Qed.

(** On ASCII text the Unicode tables play no part. *)
Example percent_after_blank_any_tables
    (unicode_digit unicode_space : codepoint -> bool) :
  findall (percent_re unicode_digit unicode_space) (lit "up 5 %") = [lit "5"] /\
  findall (immediate_percent_re unicode_digit) (lit "up 5 %") = [].
Proof. split; vm_compute; reflexivity. Qed.

Lemma percent_adjacent_found (unicode_digit : codepoint -> bool) (text p : str) :
  percent_adjacent (is_digit unicode_digit) text p ->
  findall (immediate_percent_re unicode_digit) text <> [].
Proof.
  intros [pre [post [-> Hnum]]]. apply findall_not_nil.
  exists pre, (p ++ lit "%" ++ post). split; [reflexivity|].
  replace (p ++ lit "%" ++ post) with ((p ++ lit "%") ++ post)
    by now rewrite <- !app_assoc.
  eapply match_here_complete with (g0 := None). unfold immediate_percent_re.
  eapply matches_cat; [|apply chr_matches].
  eapply matches_grp. now apply number_re_matches.
Qed.

(** C3, as stated, fails on the content "up 5 %": the percentage 5 is
    found although a blank stands between the number and the percent
    sign; the pattern without white space finds nothing there, and
    nowhere in the text does 5 stand right before a percent sign. *)
Lemma percent_after_blank_counterexample :
  findall (percent_re (fun _ => false) (fun _ => false)) (lit "up 5 %") = [lit "5"] /\
  findall (immediate_percent_re (fun _ => false)) (lit "up 5 %") = [] /\
  ~ percent_adjacent (is_digit (fun _ => false)) (lit "up 5 %") (lit "5") /\
  calculate_growth_potential
    (fun _ => [mkResult None (Some (lit "Up 5 %"))])
    (fun s => s) (fun _ => false) (fun _ => false) (lit "ACME") =
    lit "📈 GROWTH POTENTIAL for ACME: 5%, Positive trend detected".
Proof.
  split; [vm_compute; reflexivity|].
  split; [vm_compute; reflexivity|].
  split; [|vm_compute; reflexivity].
  intros H. apply percent_adjacent_found in H. apply H.
  vm_compute. reflexivity.
Qed.

(** ** The statements at concrete inputs *)


Example make_investment_decision_sell :
  make_investment_decision (fun s => s) (lit "ACME")
    (lit "Strong growth") (lit "• Debt risk • Margins decline") =
  lit "🎯 FINAL DECISION for ACME: SELL/AVOID" ++ NL
    ++ lit "Confidence Level: High" ++ NL
    ++ lit "Bull Arguments: 1 points" ++ NL
    ++ lit "Bear Arguments: 3 points" ++ NL
    ++ lit "Recommendation: Based on current analysis, sell/avoid position".
Proof. vm_compute. reflexivity. Qed.

(** More points but no keyword: neither BUY nor SELL/AVOID. *)
Example make_investment_decision_hold :
  make_investment_decision (fun s => s) (lit "ACME")
    (lit "• New stores • New markets") (lit "Some risk") =
  lit "🎯 FINAL DECISION for ACME: HOLD/RESEARCH MORE" ++ NL
    ++ lit "Confidence Level: Medium" ++ NL
    ++ lit "Bull Arguments: 3 points" ++ NL
    ++ lit "Bear Arguments: 1 points" ++ NL
    ++ lit "Recommendation: Based on current analysis, hold/research more position".
Proof. vm_compute. reflexivity. Qed.

(** C4 at one result whose content holds the keyword. *)
Lemma search_and_extract_signals_spec_witness :
  search_and_extract_signals (fun _ => [acme_result]) (fun s => s)
    (lit "ACME") (lit "ACME stock") [lit "profit"] (lit "SIGNALS") (lit "none") =
  lit "SIGNALS for ACME:" ++ NL
    ++ lit "• ACME beats estimates: ACME reported strong profit growth this quarter......".
Proof.
  destruct (proj1 (search_and_extract_signals_spec
                     (fun _ => [acme_result]) (fun s => s)
                     (lit "ACME") (lit "ACME stock") [lit "profit"]
                     (lit "SIGNALS") (lit "none")))
    as [found [Hkept Hout]].
  - exists acme_result. split; [now left|].
    exists (lit "profit"). split; [now left|].
    apply str_in_iff. vm_compute. reflexivity.
  - rewrite Hout.
    assert (Hfound : found = [acme_result]).
    { inversion Hkept as [|x l f Hx Hrest|x l f Hx Hrest]; subst.
      - now inversion Hrest.
      - exfalso. apply Hx. exists (lit "profit"). split; [now left|].
        apply str_in_iff. vm_compute. reflexivity. }
    rewrite Hfound. vm_compute. reflexivity.
Defined.

(** C10 at a result whose title alone holds a keyword. *)
Lemma get_current_market_sentiment_spec_witness :
  exists found,
    In (mkResult (Some (lit "Market wrap")) (Some (lit "Shares were flat."))) found /\
    (found <> [] ->
     get_current_market_sentiment
       (fun _ => [mkResult (Some (lit "Market wrap")) (Some (lit "Shares were flat."))])
       (fun s => s) (lit "ACME") =
     lit "📊 CURRENT MARKET DATA for " ++ lit "ACME" ++ lit ":" ++ NL
       ++ join NL
            (map (fun r => lit "• " ++ get (title r) [] ++ lit ": "
                             ++ firstn 150 (get (content r) []) ++ lit "...")
               (firstn 2 found))).
Proof.
  destruct (get_current_market_sentiment_spec
              (fun _ => [mkResult (Some (lit "Market wrap"))
                                  (Some (lit "Shares were flat."))])
              (fun s => s) (lit "ACME"))
    as [found [_ [_ [Hout [_ Htitle]]]]].
  exists found. split; [|exact Hout].
  apply Htitle; [now left | reflexivity | reflexivity |].
  exists (lit "market"). split; [right; right; now left|].
  apply str_in_iff. vm_compute. reflexivity.
Defined.

(** C3, as amended, at a text with two percentages, the second with a
    fraction and a blank before the percent sign. *)
Lemma percentages_spec_witness :
  disjoint_classes (is_digit (fun _ => false)) (is_space (fun _ => false)) /\
  forall tokens,
    percent_scan (is_digit (fun _ => false)) (is_space (fun _ => false))
      (lit "up 5% and 12.5 %") tokens <->
    tokens = [lit "5"; lit "12.5"].
Proof.
  split; [exact ascii_classes_disjoint|].
  exact (proj1 (proj2 (percentages_spec (fun s => s) (fun _ => false)
                         (fun _ => false) (lit "up 5% and 12.5 %")))
           ascii_classes_disjoint).
Defined.

(** ** The pattern of the negative changes *)

Lemma matches_literal (s w : str) (g g' : option str) :
  s <> [] -> matches (Lit s) w g g' -> g' = g /\ w = s.
Proof.
  revert w g g'. induction s as [|c s IH]; intros w g g' Hne H; [congruence|].
  destruct s as [|d s].
  - now apply matches_chr in H.
  - change (Lit (c :: d :: s)) with (Cat (Chr c) (Lit (d :: s))) in H.
    inversion H as [|a b w1 w2 g0 g1 g2 H1 H2| | | | |]; subst.
    apply matches_chr in H1. destruct H1 as [-> ->].
    apply IH in H2; [|discriminate]. destruct H2 as [-> ->]. now split.
Qed.

Lemma literal_matches (s : str) (g : option str) :
  s <> [] -> matches (Lit s) s g g.
Proof.
  induction s as [|c s IH]; intros Hne; [congruence|].
  destruct s as [|d s]; [apply chr_matches|].
  change (Lit (c :: d :: s)) with (Cat (Chr c) (Lit (d :: s))).
  change (c :: d :: s) with ([c] ++ d :: s).
  eapply matches_cat; [apply chr_matches | apply IH; discriminate].
Qed.

Lemma risk_step_eq (unicode_lower : str -> str)
    (unicode_digit unicode_space : codepoint -> bool)
    (risk_factors : list str) (result : SearchResult) :
  let text := lower unicode_lower (get (content result) []) in
  risk_step unicode_lower unicode_digit unicode_space risk_factors result =
  risk_factors
    ++ (if any (fun term => str_in term text) risk_terms
        then [lit "Market risk identified"] else [])
    ++ map (fun p => lit "Down " ++ p ++ lit "%")
         (firstn 2 (findall (down_re unicode_digit unicode_space) text)).
Proof.
  intros text. unfold risk_step. cbv zeta. fold text.
  destruct (findall (down_re unicode_digit unicode_space) text) as [|p ps];
    cbn [truthy];
    destruct (any (fun term => str_in term text) risk_terms);
    cbn [firstn map app]; rewrite <- ?app_assoc, ?app_nil_r; reflexivity.
Qed.

(** The negative changes of [assess_market_risks].  The numbers found in
    a text each stand in it after the word down and white space, and
    before white space, possibly none, and a percent sign; some number is
    found as soon as the text holds one so placed.  For each result the
    first two found in the lower-cased content are added, written
    "Down p%", after the note on risk terms. *)
Theorem negative_changes_spec
    (unicode_lower : str -> str) (unicode_digit unicode_space : codepoint -> bool)
    (text : str) :
  let digit := is_digit unicode_digit in
  let space := is_space unicode_space in
  let negative_changes := findall (down_re unicode_digit unicode_space) text in
  (forall p, In p negative_changes -> down_follows digit space text p) /\
  ((exists p, down_follows digit space text p) -> negative_changes <> []) /\
  (forall (risk_factors : list str) (result : SearchResult),
     exists note,
       risk_step unicode_lower unicode_digit unicode_space risk_factors result =
       risk_factors ++ note
         ++ map (fun p => lit "Down " ++ p ++ lit "%")
              (firstn 2
                 (findall (down_re unicode_digit unicode_space)
                    (lower unicode_lower (get (content result) []))))).
Proof.
  intros digit space negative_changes.
  assert (Hdown : lit "down" <> []) by discriminate.
  split; [|split].
  - intros p Hin. apply findall_from_sound in Hin.
    destruct Hin as [pre [suf [rest [-> Hm]]]].
    apply match_here_sound in Hm. destruct Hm as [w [g' [-> [Hw ->]]]].
    unfold down_re in Hw.
    inversion Hw as [|a b w1 w2 g0 g1 g2 H1 H2| | | | |]; subst.
    apply (@matches_literal (lit "down")) in H1; [|assumption].
    destruct H1 as [-> ->].
    inversion H2 as [|a b w3 w4 g0 g1 g3 H3 H4| | | | |]; subst.
    apply matches_class_plus in H3. destruct H3 as [-> [Hgap Hblank]].
    apply matches_percent_re in H4.
    destruct H4 as [p' [ws [-> [-> [Hnum Hws]]]]].
    exists pre, w3, ws, rest. cbn [get].
    split; [now rewrite <- !app_assoc | auto].
  - intros [p [pre [gap [ws [post [-> [Hgap [Hblank [Hnum Hws]]]]]]]]].
    apply findall_not_nil.
    exists pre, (lit "down" ++ gap ++ p ++ ws ++ lit "%" ++ post).
    split; [reflexivity|].
    replace (lit "down" ++ gap ++ p ++ ws ++ lit "%" ++ post)
      with ((lit "down" ++ gap ++ p ++ ws ++ lit "%") ++ post)
      by now rewrite <- !app_assoc.
    eapply match_here_complete with (g0 := None). unfold down_re.
    eapply matches_cat; [now apply literal_matches|].
    eapply matches_cat; [apply class_plus_matches; now split|].
    now apply percent_re_matches.
  - intros risk_factors result. eexists. apply risk_step_eq.
Qed.

Example assess_market_risks_down :
  assess_market_risks
    (fun _ => [mkResult None (Some (lit "Shares are DOWN  7.5 % on debt worries"))])
    (fun s => s) (fun _ => false) (fun _ => false) (lit "ACME") =
  lit "⚠️ RISK ASSESSMENT for ACME: Market risk identified, Down 7.5%".
Proof. vm_compute. reflexivity. Qed.

(** ** The points of a tool's answer *)

Lemma bullet_free_iff (text : str) : bullet_free text <-> occurrences bullet text = 0.
Proof.
  unfold bullet_free. change (lit "•") with [bullet].
  now rewrite occurs_in_single, occurrences_zero.
Qed.

Lemma occurrences_firstn (c : codepoint) (n : nat) (s : str) :
  occurrences c s = 0 -> occurrences c (firstn n s) = 0.
Proof.
  revert n; induction s as [|x s IH]; intros n H; destruct n; simpl in *; try reflexivity.
  destruct (x =? c)%N; [discriminate|]. simpl in *. now apply IH.
Qed.

Lemma occurrences_join (c : codepoint) (sep : str) (parts : list str) :
  occurrences c sep = 0 ->
  Forall (fun part => occurrences c part = 1) parts ->
  occurrences c (join sep parts) = length parts.
Proof.
  intros Hsep. induction 1 as [|part parts Hpart _ IH]; [reflexivity|].
  destruct parts as [|part' parts]; [simpl; exact Hpart|].
  rewrite join_cons by discriminate.
  rewrite !occurrences_app, Hpart, Hsep, IH. reflexivity.
Qed.

Lemma signal_entry_occurrences (result : SearchResult) :
  bullet_free (get (title result) []) ->
  bullet_free (get (content result) []) ->
  occurrences bullet (signal_entry result (get (content result) [])) = 1.
Proof.
  rewrite !bullet_free_iff. intros Ht Hc. unfold signal_entry.
  rewrite !occurrences_app, (occurrences_firstn _ 200 _ Hc).
  destruct (title result) as [t|]; cbn [get] in *; [rewrite Ht|]; reflexivity.
Qed.

Lemma search_and_extract_signals_eq
    (web_search : str -> list SearchResult) (unicode_lower : str -> str)
    (stock_symbol query : str) (keywords : list str) (prefix default_msg : str) :
  search_and_extract_signals web_search unicode_lower
    stock_symbol query keywords prefix default_msg =
  match filter (fun r => check_signals unicode_lower (get (content r) []) keywords)
          (web_search query) with
  | [] => prefix ++ lit " " ++ stock_symbol ++ lit ": " ++ default_msg
  | found =>
      prefix ++ lit " for " ++ stock_symbol ++ lit ":" ++ NL
        ++ join NL (map (fun r => signal_entry r (get (content r) []))
                      (firstn 2 found))
  end.
Proof.
  unfold search_and_extract_signals. cbv zeta. rewrite extract_signals_eq.
  destruct (filter _ (web_search query)) as [|r found]; [reflexivity|].
  now rewrite firstn_map.
Qed.

Lemma filter_nil_iff {A : Type} (test : A -> bool) (l : list A) :
  filter test l = [] <-> forall x, In x l -> test x = false.
Proof.
  induction l as [|y l IH]; simpl.
  - split; [intros _ x [] | reflexivity].
  - destruct (test y) eqn:E.
    + split; [discriminate|]. intros H. specialize (H y (or_introl eq_refl)). congruence.
    + rewrite IH. split.
      * intros H x [<-|Hin]; auto.
      * intros H x Hin. apply H. now right.
Qed.

Lemma check_signals_false_iff (unicode_lower : str -> str) (text : str)
    (keywords : list str) :
  check_signals unicode_lower text keywords = false <->
  ~ mentions (lower unicode_lower) keywords text.
Proof.
  rewrite <- check_signals_iff.
  destruct (check_signals unicode_lower text keywords); split; congruence.
Qed.

Lemma in_firstn {A : Type} (n : nat) (l : list A) (x : A) :
  In x (firstn n l) -> In x l.
Proof.
  revert n; induction l as [|y l IH]; intros [|n]; simpl; try tauto.
  intros [->|H]; [now left | right; eauto].
Qed.

Lemma search_and_extract_signals_score
    (web_search : str -> list SearchResult) (unicode_lower : str -> str)
    (stock_symbol query : str) (keywords : list str) (prefix default_msg : str) :
  bullet_free prefix -> bullet_free stock_symbol -> bullet_free default_msg ->
  (forall r, In r (web_search query) ->
     bullet_free (get (title r) []) /\ bullet_free (get (content r) [])) ->
  count_points
    (search_and_extract_signals web_search unicode_lower
       stock_symbol query keywords prefix default_msg) =
  1 + length
        (firstn 2
           (filter (fun r => check_signals unicode_lower (get (content r) []) keywords)
              (web_search query))).
Proof.
  rewrite !bullet_free_iff. intros Hprefix Hsymbol Hdefault Hresults.
  set (test := fun r => check_signals unicode_lower (get (content r) []) keywords).
  rewrite count_points_eq, search_and_extract_signals_eq. fold test.
  assert (Hfound : forall r, In r (filter test (web_search query)) ->
                     occurrences bullet (signal_entry r (get (content r) [])) = 1).
  { intros r Hin. apply filter_In in Hin.
    destruct (Hresults r (proj1 Hin)). now apply signal_entry_occurrences. }
  destruct (filter test (web_search query)) as [|r found] eqn:E.
  - rewrite !occurrences_app, Hprefix, Hsymbol, Hdefault. reflexivity.
  - rewrite !occurrences_app, Hprefix, Hsymbol.
    rewrite occurrences_join; [now rewrite length_map | reflexivity |].
    apply Forall_map, Forall_forall. intros x Hx.
    apply Hfound. now apply in_firstn in Hx.
Qed.

(** The points of an answer of [search_and_extract_signals].  When the
    prefix, the symbol, the default message and the titles and contents
    of the results hold no bullet, the answer counts one point more than
    it joins entries: one point without a finding, two or three with
    findings.  The heading before the first bullet is a point of its own. *)
Theorem search_and_extract_signals_points
    (web_search : str -> list SearchResult) (unicode_lower : str -> str)
    (stock_symbol query : str) (keywords : list str) (prefix default_msg : str) :
  bullet_free prefix -> bullet_free stock_symbol -> bullet_free default_msg ->
  (forall r, In r (web_search query) ->
     bullet_free (get (title r) []) /\ bullet_free (get (content r) [])) ->
  exists found,
    kept (fun r => mentions (lower unicode_lower) keywords (get (content r) []))
      (web_search query) found /\
    count_points
      (search_and_extract_signals web_search unicode_lower
         stock_symbol query keywords prefix default_msg) =
      1 + length (firstn 2 found) /\
    count_points
      (search_and_extract_signals web_search unicode_lower
         stock_symbol query keywords prefix default_msg) <= 3.
Proof.
  intros Hprefix Hsymbol Hdefault Hresults.
  exists (filter (fun r => check_signals unicode_lower (get (content r) []) keywords)
            (web_search query)).
  split; [apply kept_filter; intros r; apply check_signals_iff|].
  rewrite (@search_and_extract_signals_score
             web_search unicode_lower stock_symbol query keywords prefix default_msg
             Hprefix Hsymbol Hdefault Hresults).
  split; [reflexivity|].
  pose proof (firstn_cap 2
                (filter (fun r => check_signals unicode_lower (get (content r) []) keywords)
                   (web_search query))).
  lia.
Qed.

(** The points of an answer, at one finding: two points. *)
Lemma search_and_extract_signals_points_witness :
  exists found,
    kept (fun r => mentions (lower (fun s => s)) [lit "profit"] (get (content r) []))
      [acme_result] found /\
    count_points
      (search_and_extract_signals (fun _ => [acme_result]) (fun s => s)
         (lit "ACME") (lit "ACME stock") [lit "profit"] (lit "SIGNALS") (lit "none")) =
      1 + length (firstn 2 found).
Proof.
  destruct (@search_and_extract_signals_points
              (fun _ => [acme_result]) (fun s => s)
              (lit "ACME") (lit "ACME stock") [lit "profit"]
              (lit "SIGNALS") (lit "none"))
    as [found [Hkept [Hpoints _]]].
  - apply bullet_free_iff. reflexivity.
  - apply bullet_free_iff. reflexivity.
  - apply bullet_free_iff. reflexivity.
  - intros r [<-|[]]. split; apply bullet_free_iff; reflexivity.
  - exists found. split; assumption.
Defined.

(** ** The decision on the answers of the news tools *)

Lemma search_and_extract_signals_default
    (web_search : str -> list SearchResult) (unicode_lower : str -> str)
    (stock_symbol query : str) (keywords : list str) (prefix default_msg : str) :
  (forall r, In r (web_search query) ->
     ~ mentions (lower unicode_lower) keywords (get (content r) [])) ->
  search_and_extract_signals web_search unicode_lower
    stock_symbol query keywords prefix default_msg =
  prefix ++ lit " " ++ stock_symbol ++ lit ": " ++ default_msg.
Proof.
  intros Hnone. rewrite search_and_extract_signals_eq.
  replace (filter _ (web_search query)) with (@nil SearchResult); [reflexivity|].
  symmetry. apply filter_nil_iff. intros r Hin.
  apply check_signals_false_iff. now apply Hnone.
Qed.

Lemma decision_equal_scores (unicode_lower : str -> str) (bull_points bear_points : str) :
  count_points bull_points = count_points bear_points ->
  decision unicode_lower bull_points bear_points =
  (lit "HOLD/RESEARCH MORE", lit "Medium").
Proof.
  intros E. unfold decision. rewrite E, Nat.ltb_irrefl. reflexivity.
Qed.

(** When neither news tool has a finding, the decision on their two
    answers is HOLD/RESEARCH MORE with confidence Medium, for every
    symbol: both default answers hold the symbol once and no bullet of
    their own, so the two scores are equal, and the keywords are not
    consulted. *)
Theorem no_findings_hold
    (web_search : str -> list SearchResult) (unicode_lower : str -> str)
    (stock_symbol : str) :
  (forall r,
     In r (web_search
             (stock_symbol
                ++ lit " stock positive news earnings growth revenue profit upgrade")) ->
     ~ mentions (lower unicode_lower)
         [lit "profit"; lit "growth"; lit "upgrade"; lit "beat"; lit "strong";
          lit "positive"; lit "bullish"]
         (get (content r) [])) ->
  (forall r,
     In r (web_search
             (stock_symbol
                ++ lit " stock negative news risks decline losses downgrade warning")) ->
     ~ mentions (lower unicode_lower)
         [lit "loss"; lit "decline"; lit "risk"; lit "warning"; lit "downgrade";
          lit "weak"; lit "negative"; lit "bearish"; lit "concern"]
         (get (content r) [])) ->
  make_investment_decision unicode_lower stock_symbol
    (find_positive_news web_search unicode_lower stock_symbol)
    (find_negative_news web_search unicode_lower stock_symbol) =
  decision_report unicode_lower stock_symbol
    (lit "HOLD/RESEARCH MORE") (lit "Medium")
    (1 + occurrences bullet stock_symbol) (1 + occurrences bullet stock_symbol).
Proof.
  intros Hpos Hneg.
  assert (Ebull : count_points (find_positive_news web_search unicode_lower stock_symbol)
                  = 1 + occurrences bullet stock_symbol).
  { unfold find_positive_news. cbv zeta.
    rewrite search_and_extract_signals_default by exact Hpos.
    rewrite count_points_eq, !occurrences_app.
    cbn [Nat.add]. f_equal. rewrite Nat.add_0_r. reflexivity. }
  assert (Ebear : count_points (find_negative_news web_search unicode_lower stock_symbol)
                  = 1 + occurrences bullet stock_symbol).
  { unfold find_negative_news. cbv zeta.
    rewrite search_and_extract_signals_default by exact Hneg.
    rewrite count_points_eq, !occurrences_app.
    cbn [Nat.add]. f_equal. rewrite Nat.add_0_r. reflexivity. }
  rewrite make_investment_decision_eq.
  rewrite decision_equal_scores by congruence.
  rewrite Ebull, Ebear. reflexivity.
Qed.

(** No finding on a search client without results. *)
Lemma no_findings_hold_witness :
  make_investment_decision (fun s => s) (lit "ACME")
    (find_positive_news (fun _ => []) (fun s => s) (lit "ACME"))
    (find_negative_news (fun _ => []) (fun s => s) (lit "ACME")) =
  decision_report (fun s => s) (lit "ACME")
    (lit "HOLD/RESEARCH MORE") (lit "Medium") 1 1.
Proof.
  apply (@no_findings_hold (fun _ => []) (fun s => s) (lit "ACME"));
    intros r [].
Defined.

Lemma ascii_lower_keeps_runs : keeps_ascii_runs (lower ascii_lower).
Proof.
  intros pre w post _. unfold lower.
  destruct (is_ascii (pre ++ w ++ post)); unfold ascii_lower;
    rewrite !map_app; now exists (map ascii_lower_cp pre), (map ascii_lower_cp post).
Qed.

Lemma find_negative_news_prefix
    (web_search : str -> list SearchResult) (unicode_lower : str -> str)
    (stock_symbol : str) :
  exists rest,
    find_negative_news web_search unicode_lower stock_symbol =
    lit "🐻 " ++ lit "WARNING" ++ lit " SIGNALS" ++ rest.
Proof.
  unfold find_negative_news. cbv zeta. rewrite search_and_extract_signals_eq.
  replace (lit "🐻 WARNING SIGNALS")
    with (lit "🐻 " ++ lit "WARNING" ++ lit " SIGNALS") by (vm_compute; reflexivity).
  destruct (filter _ _); eexists; rewrite <- !app_assoc; reflexivity.
Qed.

Lemma find_negative_news_warns
    (web_search : str -> list SearchResult) (unicode_lower : str -> str)
    (stock_symbol : str) :
  keeps_ascii_runs (lower unicode_lower) ->
  check_signals unicode_lower
    (find_negative_news web_search unicode_lower stock_symbol) bear_keywords = true.
Proof.
  intros Hlower. apply check_signals_iff.
  destruct (find_negative_news_prefix web_search unicode_lower stock_symbol)
    as [rest E].
  exists (lit "warning"). split; [right; right; now left|].
  rewrite E. change (lit "warning") with (ascii_lower (lit "WARNING")).
  apply Hlower. reflexivity.
Qed.

(** The answer of [find_negative_news] always passes the bear keyword
    check of the decision, with or without findings: its prefix reads
    WARNING SIGNALS, and warning is one of the keywords.  So whenever
    that answer outscores the bull text, the decision is SELL/AVOID with
    confidence High.  This rests on [str.lower] lower-casing the ASCII
    letters of a text that is not all ASCII (the prefix starts with an
    emoji). *)
Theorem find_negative_news_always_warns
    (web_search : str -> list SearchResult) (unicode_lower : str -> str)
    (stock_symbol : str) :
  keeps_ascii_runs (lower unicode_lower) ->
  let bear_points := find_negative_news web_search unicode_lower stock_symbol in
  mentions (lower unicode_lower)
    [lit "risk"; lit "decline"; lit "warning"; lit "concern"] bear_points /\
  (forall bull_points : str,
     count_points bull_points < count_points bear_points ->
     make_investment_decision unicode_lower stock_symbol bull_points bear_points =
     decision_report unicode_lower stock_symbol (lit "SELL/AVOID") (lit "High")
       (count_points bull_points) (count_points bear_points)).
Proof.
  intros Hlower bear_points.
  pose proof (find_negative_news_warns web_search stock_symbol Hlower) as Hwarn.
  fold bear_points in Hwarn.
  split; [now apply check_signals_iff|].
  intros bull_points Hless. rewrite make_investment_decision_eq. unfold decision.
  rewrite Hwarn.
  apply Nat.ltb_lt in Hless. rewrite Hless.
  replace (count_points bear_points <? count_points bull_points) with false
    by (symmetry; apply Nat.ltb_ge; apply Nat.ltb_lt in Hless; lia).
  reflexivity.
Qed.

(** The bear answer with one finding against a bull text of one point. *)
Lemma find_negative_news_always_warns_witness :
  keeps_ascii_runs (lower ascii_lower) /\
  make_investment_decision ascii_lower (lit "ACME") (lit "Strong growth")
    (find_negative_news
       (fun _ => [mkResult (Some (lit "ACME slips")) (Some (lit "Analysts see a loss."))])
       ascii_lower (lit "ACME")) =
  decision_report ascii_lower (lit "ACME") (lit "SELL/AVOID") (lit "High") 1 2.
Proof.
  split; [exact ascii_lower_keeps_runs|].
  apply (proj2 (@find_negative_news_always_warns
                  (fun _ => [mkResult (Some (lit "ACME slips"))
                                      (Some (lit "Analysts see a loss."))])
                  ascii_lower (lit "ACME") ascii_lower_keeps_runs)
               (lit "Strong growth")).
  vm_compute. lia.
Defined.

(** ** Bullets decide before keywords *)

Lemma decision_report_recommendation (unicode_lower : str -> str)
    (stock_symbol r1 c1 r2 c2 : str) (bull_score bear_score : nat) :
  decision_report unicode_lower stock_symbol r1 c1 bull_score bear_score =
  decision_report unicode_lower stock_symbol r2 c2 bull_score bear_score ->
  exists rest1 rest2, r1 ++ NL ++ rest1 = r2 ++ NL ++ rest2.
Proof.
  unfold decision_report. intros H.
  do 3 apply app_inv_head in H. eauto.
Qed.

(** The number of bullets decides before any keyword is looked at.  When
    the bull text has no more bullets than the bear text the answer is
    not the BUY report, when the bear text has no more bullets than the
    bull text it is not the SELL/AVOID report, and with equally many
    bullets it is the HOLD/RESEARCH MORE report, whatever the texts say. *)
Theorem bullets_decide_first
    (unicode_lower : str -> str) (stock_symbol bull_points bear_points : str) :
  let result :=
    make_investment_decision unicode_lower stock_symbol bull_points bear_points in
  let report recommendation confidence :=
    decision_report unicode_lower stock_symbol recommendation confidence
      (count_points bull_points) (count_points bear_points) in
  (occurrences bullet bull_points <= occurrences bullet bear_points ->
     result <> report (lit "BUY") (lit "High")) /\
  (occurrences bullet bear_points <= occurrences bullet bull_points ->
     result <> report (lit "SELL/AVOID") (lit "High")) /\
  (occurrences bullet bull_points = occurrences bullet bear_points ->
     result = report (lit "HOLD/RESEARCH MORE") (lit "Medium")).
Proof.
  intros result report. subst result report. cbv beta.
  rewrite make_investment_decision_eq. unfold decision.
  rewrite !count_points_eq.
  split; [|split].
  - intros Hle.
    replace (S (occurrences bullet bear_points) <? S (occurrences bullet bull_points))
      with false by (symmetry; apply Nat.ltb_ge; lia).
    cbn [andb]. destruct (_ && _); cbn [fst snd]; intros H;
      apply decision_report_recommendation in H;
      destruct H as [rest1 [rest2 H]]; vm_compute in H; discriminate.
  - intros Hle.
    replace (S (occurrences bullet bull_points) <? S (occurrences bullet bear_points))
      with false by (symmetry; apply Nat.ltb_ge; lia).
    cbn [andb]. destruct (_ && _); cbn [fst snd]; intros H;
      apply decision_report_recommendation in H;
      destruct H as [rest1 [rest2 H]]; vm_compute in H; discriminate.
  - intros E. rewrite E, Nat.ltb_irrefl. reflexivity.
Qed.

(** ** The indicators of calculate_growth_potential and assess_market_risks *)

Lemma percent_found_follows (unicode_digit unicode_space : codepoint -> bool)
    (text p : str) :
  In p (findall (percent_re unicode_digit unicode_space) text) ->
  percent_follows (is_digit unicode_digit) (is_space unicode_space) text p.
Proof.
  intros Hin. apply findall_from_sound in Hin.
  destruct Hin as [pre [suf [rest [-> Hm]]]].
  apply match_here_sound in Hm. destruct Hm as [w [g' [-> [Hw ->]]]].
  apply matches_percent_re in Hw.
  destruct Hw as [p' [ws [-> [-> [Hnum Hws]]]]].
  exists pre, ws, rest. cbn [get].
  split; [now rewrite <- !app_assoc | now split].
Qed.

Lemma percent_follows_found (unicode_digit unicode_space : codepoint -> bool)
    (text : str) :
  (exists p, percent_follows (is_digit unicode_digit) (is_space unicode_space) text p) ->
  findall (percent_re unicode_digit unicode_space) text <> [].
Proof.
  intros [p [pre [ws [post [-> [Hnum Hws]]]]]].
  apply findall_not_nil. exists pre, (p ++ ws ++ lit "%" ++ post).
  split; [reflexivity|].
  replace (p ++ ws ++ lit "%" ++ post) with ((p ++ ws ++ lit "%") ++ post)
    by now rewrite <- !app_assoc.
  eapply match_here_complete with (g0 := None). now apply percent_re_matches.
Qed.

Lemma down_found_follows (unicode_digit unicode_space : codepoint -> bool)
    (text p : str) :
  In p (findall (down_re unicode_digit unicode_space) text) ->
  down_follows (is_digit unicode_digit) (is_space unicode_space) text p.
Proof.
  intros Hin. apply findall_from_sound in Hin.
  destruct Hin as [pre [suf [rest [-> Hm]]]].
  apply match_here_sound in Hm. destruct Hm as [w [g' [-> [Hw ->]]]].
  unfold down_re in Hw.
  inversion Hw as [|a b w1 w2 g0 g1 g2 H1 H2| | | | |]; subst.
  apply (@matches_literal (lit "down")) in H1; [|discriminate].
  destruct H1 as [-> ->].
  inversion H2 as [|a b w3 w4 g0 g1 g3 H3 H4| | | | |]; subst.
  apply matches_class_plus in H3. destruct H3 as [-> [Hgap Hblank]].
  apply matches_percent_re in H4.
  destruct H4 as [p' [ws [-> [-> [Hnum Hws]]]]].
  exists pre, w3, ws, rest. cbn [get].
  split; [now rewrite <- !app_assoc | auto].
Qed.

Lemma down_follows_found (unicode_digit unicode_space : codepoint -> bool)
    (text : str) :
  (exists p, down_follows (is_digit unicode_digit) (is_space unicode_space) text p) ->
  findall (down_re unicode_digit unicode_space) text <> [].
Proof.
  intros [p [pre [gap [ws [post [-> [Hgap [Hblank [Hnum Hws]]]]]]]]].
  apply findall_not_nil.
  exists pre, (lit "down" ++ gap ++ p ++ ws ++ lit "%" ++ post).
  split; [reflexivity|].
  replace (lit "down" ++ gap ++ p ++ ws ++ lit "%" ++ post)
    with ((lit "down" ++ gap ++ p ++ ws ++ lit "%") ++ post)
    by now rewrite <- !app_assoc.
  eapply match_here_complete with (g0 := None). unfold down_re.
  eapply matches_cat; [apply literal_matches; discriminate|].
  eapply matches_cat; [apply class_plus_matches; now split|].
  now apply percent_re_matches.
Qed.

(** A loop whose turns only append: the result is what each element
    adds, in order. *)
Lemma fold_left_appending {A B : Type} (step : list B -> A -> list B) :
  (forall acc x, step acc x = acc ++ step [] x) ->
  forall l acc, fold_left step l acc = acc ++ concat (map (step []) l).
Proof.
  intros Hstep l. induction l as [|x l IH]; intros acc; simpl.
  - now rewrite app_nil_r.
  - rewrite IH, (Hstep acc x). now rewrite <- app_assoc.
Qed.

Lemma growth_step_appends (unicode_lower : str -> str)
    (unicode_digit unicode_space : codepoint -> bool)
    (acc : list str) (result : SearchResult) :
  growth_step unicode_lower unicode_digit unicode_space acc result =
  acc ++ growth_step unicode_lower unicode_digit unicode_space [] result.
Proof. now rewrite !growth_step_eq. Qed.

Lemma risk_step_appends (unicode_lower : str -> str)
    (unicode_digit unicode_space : codepoint -> bool)
    (acc : list str) (result : SearchResult) :
  risk_step unicode_lower unicode_digit unicode_space acc result =
  acc ++ risk_step unicode_lower unicode_digit unicode_space [] result.
Proof. now rewrite !risk_step_eq. Qed.

Lemma concat_nil_iff {A : Type} (ls : list (list A)) :
  concat ls = [] <-> Forall (fun l => l = []) ls.
Proof.
  induction ls as [|l ls IH]; simpl.
  - split; [constructor | reflexivity].
  - split.
    + intros H. apply app_eq_nil in H. destruct H as [-> H].
      constructor; [reflexivity | now apply IH].
    + intros H. inversion H; subst. simpl. now apply IH.
Qed.

Lemma calculate_growth_potential_eq
    (web_search : str -> list SearchResult) (unicode_lower : str -> str)
    (unicode_digit unicode_space : codepoint -> bool) (stock_symbol : str) :
  calculate_growth_potential web_search unicode_lower unicode_digit unicode_space
    stock_symbol =
  match concat (map (growth_step unicode_lower unicode_digit unicode_space [])
                  (web_search
                     (stock_symbol
                        ++ lit " stock price earnings revenue growth rate market cap")))
  with
  | [] => lit "📈 " ++ stock_symbol
            ++ lit ": Growth data limited, but could indicate overlooked opportunity!"
  | indicators =>
      lit "📈 GROWTH POTENTIAL for " ++ stock_symbol ++ lit ": "
        ++ join (lit ", ") (firstn 3 indicators)
  end.
Proof.
  unfold calculate_growth_potential. cbv zeta.
  rewrite (fold_left_appending _ (growth_step_appends _ _ _)). cbn [app].
  now destruct (concat _).
Qed.

Lemma assess_market_risks_eq
    (web_search : str -> list SearchResult) (unicode_lower : str -> str)
    (unicode_digit unicode_space : codepoint -> bool) (stock_symbol : str) :
  assess_market_risks web_search unicode_lower unicode_digit unicode_space
    stock_symbol =
  match concat (map (risk_step unicode_lower unicode_digit unicode_space [])
                  (web_search
                     (stock_symbol
                        ++ lit " stock market risks volatility debt competition regulatory concerns")))
  with
  | [] => lit "⚠️ " ++ stock_symbol
            ++ lit ": Risk factors unclear - proceed with extreme caution!"
  | factors =>
      lit "⚠️ RISK ASSESSMENT for " ++ stock_symbol ++ lit ": "
        ++ join (lit ", ") (firstn 3 factors)
  end.
Proof.
  unfold assess_market_risks. cbv zeta.
  rewrite (fold_left_appending _ (risk_step_appends _ _ _)). cbn [app].
  now destruct (concat _).
Qed.

Lemma growth_items_eq (unicode_lower : str -> str)
    (unicode_digit unicode_space : codepoint -> bool) (result : SearchResult) :
  let text := lower unicode_lower (get (content result) []) in
  growth_step unicode_lower unicode_digit unicode_space [] result =
  map (fun p => p ++ lit "%")
    (firstn 3 (findall (percent_re unicode_digit unicode_space) text))
    ++ (if any (fun term => str_in term text) growth_terms
        then [lit "Positive trend detected"] else []).
Proof. intros text. now rewrite growth_step_eq. Qed.

Lemma risk_items_eq (unicode_lower : str -> str)
    (unicode_digit unicode_space : codepoint -> bool) (result : SearchResult) :
  let text := lower unicode_lower (get (content result) []) in
  risk_step unicode_lower unicode_digit unicode_space [] result =
  (if any (fun term => str_in term text) risk_terms
   then [lit "Market risk identified"] else [])
    ++ map (fun p => lit "Down " ++ p ++ lit "%")
         (firstn 2 (findall (down_re unicode_digit unicode_space) text)).
Proof. intros text. now rewrite risk_step_eq. Qed.

Lemma firstn_not_nil {A : Type} (n : nat) (l : list A) :
  l <> [] -> firstn (S n) l <> [].
Proof. destruct l; [congruence | discriminate]. Qed.

(** The two answers of [calculate_growth_potential].  A result has an
    indicator when its lower-cased content holds a number before optional
    white space and a percent sign, or one of the terms increase, growth,
    up, higher, rose, gained.  Without such a result the answer is the
    default message.  With one, the answer lists at most three
    indicators after the heading, each the note "Positive trend detected"
    or a number so placed in some result, with a percent sign appended. *)
Theorem calculate_growth_potential_branches
    (web_search : str -> list SearchResult) (unicode_lower : str -> str)
    (unicode_digit unicode_space : codepoint -> bool) (stock_symbol : str) :
  let results :=
    web_search
      (stock_symbol ++ lit " stock price earnings revenue growth rate market cap") in
  let text r := lower unicode_lower (get (content r) []) in
  let has_percentage r p :=
    percent_follows (is_digit unicode_digit) (is_space unicode_space) (text r) p in
  let has_term r :=
    exists term,
      In term [lit "increase"; lit "growth"; lit "up"; lit "higher"; lit "rose";
               lit "gained"] /\
      occurs_in term (text r) in
  let has_indicator r := (exists p, has_percentage r p) \/ has_term r in
  let output :=
    calculate_growth_potential web_search unicode_lower unicode_digit unicode_space
      stock_symbol in
  (~ (exists r, In r results /\ has_indicator r) ->
     output =
       lit "📈 " ++ stock_symbol
         ++ lit ": Growth data limited, but could indicate overlooked opportunity!") /\
  ((exists r, In r results /\ has_indicator r) ->
     exists indicators,
       indicators <> [] /\ length indicators <= 3 /\
       output =
         lit "📈 GROWTH POTENTIAL for " ++ stock_symbol ++ lit ": "
           ++ join (lit ", ") indicators /\
       Forall
         (fun indicator =>
            indicator = lit "Positive trend detected" \/
            exists r p,
              In r results /\ has_percentage r p /\ indicator = p ++ lit "%")
         indicators).
Proof.
  intros results text has_percentage has_term has_indicator output.
  subst output. rewrite calculate_growth_potential_eq. fold results.
  set (items := growth_step unicode_lower unicode_digit unicode_space []).
  assert (Hitems : forall r, items r = [] <-> ~ has_indicator r).
  { intros r. unfold items. rewrite growth_items_eq. fold (text r). split.
    - intros H. apply app_eq_nil in H. destruct H as [Hp Ht].
      intros [[p Hp'] | Hterm].
      + apply (@percent_follows_found unicode_digit unicode_space (text r));
          [now exists p|].
        destruct (findall _ (text r)); [reflexivity | discriminate].
      + apply any_str_in_iff in Hterm. fold growth_terms in Hterm.
        rewrite Hterm in Ht. discriminate.
    - intros Hno.
      destruct (findall (percent_re unicode_digit unicode_space) (text r))
        as [|p ps] eqn:Ef.
      + destruct (any _ growth_terms) eqn:Ea; [|reflexivity].
        exfalso. apply Hno. right. now apply any_str_in_iff.
      + exfalso. apply Hno. left. exists p.
        apply percent_found_follows. rewrite Ef. now left. }
  split.
  - intros Hnone.
    replace (concat (map items results)) with (@nil str); [reflexivity|].
    symmetry. apply concat_nil_iff, Forall_map, Forall_forall.
    intros r Hin. apply Hitems. intros Hr. apply Hnone. now exists r.
  - intros [r [Hin Hr]].
    assert (Hall : concat (map items results) <> []).
    { intros E. apply concat_nil_iff in E.
      rewrite Forall_map, Forall_forall in E. now apply (Hitems r); [apply E|]. }
    exists (firstn 3 (concat (map items results))).
    split; [now apply firstn_not_nil|]. split; [apply firstn_cap|].
    split; [destruct (concat (map items results)); [congruence | reflexivity]|].
    apply Forall_forall. intros indicator Hind.
    apply in_firstn, in_concat in Hind. destruct Hind as [l [Hl Hind]].
    apply in_map_iff in Hl. destruct Hl as [r' [<- Hr']].
    unfold items in Hind. rewrite growth_items_eq in Hind. fold (text r') in Hind.
    apply in_app_or in Hind. destruct Hind as [Hind | Hind].
    + apply in_map_iff in Hind. destruct Hind as [p [<- Hp]].
      right. exists r', p. split; [assumption|]. split; [|reflexivity].
      apply percent_found_follows. now apply in_firstn in Hp.
    + left. destruct (any _ growth_terms); [|destruct Hind].
      destruct Hind as [<-|[]]. reflexivity.
Qed.

(** The two answers of [assess_market_risks].  A result has a factor when
    its lower-cased content holds one of the terms risk, volatile,
    uncertain, concern, debt, competition, or a number after the word
    down and white space and before optional white space and a percent
    sign.  Without such a result the answer is the default message.  With
    one, the answer lists at most three factors after the heading, each
    the note "Market risk identified" or "Down p%" for a number p so
    placed in some result. *)
Theorem assess_market_risks_branches
    (web_search : str -> list SearchResult) (unicode_lower : str -> str)
    (unicode_digit unicode_space : codepoint -> bool) (stock_symbol : str) :
  let results :=
    web_search
      (stock_symbol
         ++ lit " stock market risks volatility debt competition regulatory concerns") in
  let text r := lower unicode_lower (get (content r) []) in
  let has_change r p :=
    down_follows (is_digit unicode_digit) (is_space unicode_space) (text r) p in
  let has_term r :=
    exists term,
      In term [lit "risk"; lit "volatile"; lit "uncertain"; lit "concern"; lit "debt";
               lit "competition"] /\
      occurs_in term (text r) in
  let has_factor r := has_term r \/ (exists p, has_change r p) in
  let output :=
    assess_market_risks web_search unicode_lower unicode_digit unicode_space
      stock_symbol in
  (~ (exists r, In r results /\ has_factor r) ->
     output =
       lit "⚠️ " ++ stock_symbol
         ++ lit ": Risk factors unclear - proceed with extreme caution!") /\
  ((exists r, In r results /\ has_factor r) ->
     exists factors,
       factors <> [] /\ length factors <= 3 /\
       output =
         lit "⚠️ RISK ASSESSMENT for " ++ stock_symbol ++ lit ": "
           ++ join (lit ", ") factors /\
       Forall
         (fun factor =>
            factor = lit "Market risk identified" \/
            exists r p,
              In r results /\ has_change r p /\
              factor = lit "Down " ++ p ++ lit "%")
         factors).
Proof.
  intros results text has_change has_term has_factor output.
  subst output. rewrite assess_market_risks_eq. fold results.
  set (items := risk_step unicode_lower unicode_digit unicode_space []).
  assert (Hitems : forall r, items r = [] <-> ~ has_factor r).
  { intros r. unfold items. rewrite risk_items_eq. fold (text r). split.
    - intros H. apply app_eq_nil in H. destruct H as [Ht Hp].
      intros [Hterm | [p Hp']].
      + apply any_str_in_iff in Hterm. fold risk_terms in Hterm.
        rewrite Hterm in Ht. discriminate.
      + apply (@down_follows_found unicode_digit unicode_space (text r));
          [now exists p|].
        destruct (findall _ (text r)); [reflexivity | discriminate].
    - intros Hno.
      destruct (findall (down_re unicode_digit unicode_space) (text r))
        as [|p ps] eqn:Ef.
      + destruct (any _ risk_terms) eqn:Ea; [|reflexivity].
        exfalso. apply Hno. left. now apply any_str_in_iff.
      + exfalso. apply Hno. right. exists p.
        apply down_found_follows. rewrite Ef. now left. }
  split.
  - intros Hnone.
    replace (concat (map items results)) with (@nil str); [reflexivity|].
    symmetry. apply concat_nil_iff, Forall_map, Forall_forall.
    intros r Hin. apply Hitems. intros Hr. apply Hnone. now exists r.
  - intros [r [Hin Hr]].
    assert (Hall : concat (map items results) <> []).
    { intros E. apply concat_nil_iff in E.
      rewrite Forall_map, Forall_forall in E. now apply (Hitems r); [apply E|]. }
    exists (firstn 3 (concat (map items results))).
    split; [now apply firstn_not_nil|]. split; [apply firstn_cap|].
    split; [destruct (concat (map items results)); [congruence | reflexivity]|].
    apply Forall_forall. intros factor Hfac.
    apply in_firstn, in_concat in Hfac. destruct Hfac as [l [Hl Hfac]].
    apply in_map_iff in Hl. destruct Hl as [r' [<- Hr']].
    unfold items in Hfac. rewrite risk_items_eq in Hfac. fold (text r') in Hfac.
    apply in_app_or in Hfac. destruct Hfac as [Hfac | Hfac].
    + left. destruct (any _ risk_terms); [|destruct Hfac].
      destruct Hfac as [<-|[]]. reflexivity.
    + apply in_map_iff in Hfac. destruct Hfac as [p [<- Hp]].
      right. exists r', p. split; [assumption|]. split; [|reflexivity].
      apply down_found_follows. now apply in_firstn in Hp.
Qed.

(** ** The first result and the cap *)

(** In [calculate_growth_potential] the first result can fill the answer.
    When the pattern finds three or more percentages in the lower-cased
    content of the first result, the answer is the heading and the first
    three of them: neither the trend note of that result nor anything of
    a later result is shown. *)
Theorem growth_first_result_fills
    (web_search : str -> list SearchResult) (unicode_lower : str -> str)
    (unicode_digit unicode_space : codepoint -> bool) (stock_symbol : str)
    (first : SearchResult) (later : list SearchResult) :
  web_search
    (stock_symbol ++ lit " stock price earnings revenue growth rate market cap") =
    first :: later ->
  3 <= length (findall (percent_re unicode_digit unicode_space)
                 (lower unicode_lower (get (content first) []))) ->
  calculate_growth_potential web_search unicode_lower unicode_digit unicode_space
    stock_symbol =
  lit "📈 GROWTH POTENTIAL for " ++ stock_symbol ++ lit ": "
    ++ join (lit ", ")
         (map (fun p => p ++ lit "%")
            (firstn 3
               (findall (percent_re unicode_digit unicode_space)
                  (lower unicode_lower (get (content first) []))))).
Proof.
  intros Hsearch Hthree. rewrite calculate_growth_potential_eq, Hsearch.
  cbn [map concat]. rewrite growth_items_eq. cbv zeta.
  set (percentages := findall _ _) in *.
  set (shown := map (fun p => p ++ lit "%") (firstn 3 percentages)).
  assert (Hlen : length shown = 3).
  { unfold shown. rewrite length_map, length_firstn. lia. }
  set (trend := if any _ growth_terms then _ else _).
  set (rest := concat _).
  rewrite <- app_assoc.
  assert (Hfirst : firstn 3 (shown ++ trend ++ rest) = shown).
  { rewrite firstn_app, Hlen, Nat.sub_diag, firstn_O, app_nil_r.
    apply firstn_all2. lia. }
  destruct (shown ++ trend ++ rest) as [|x l] eqn:E.
  - destruct shown; [discriminate Hlen | discriminate E].
  - cbv beta iota. do 4 f_equal. exact Hfirst.
Qed.

(** Three percentages in the first result, a growth term in the second. *)
Lemma growth_first_result_fills_witness :
  calculate_growth_potential
    (fun _ => [mkResult None (Some (lit "Up 5%, then 7.5 % and 12%"));
               mkResult None (Some (lit "Revenue growth of 40%"))])
    (fun s => s) (fun _ => false) (fun _ => false) (lit "ACME") =
  lit "📈 GROWTH POTENTIAL for ACME: 5%, 7.5%, 12%".
Proof.
  rewrite (@growth_first_result_fills
             (fun _ => [mkResult None (Some (lit "Up 5%, then 7.5 % and 12%"));
                        mkResult None (Some (lit "Revenue growth of 40%"))])
             (fun s => s) (fun _ => false) (fun _ => false) (lit "ACME")
             (mkResult None (Some (lit "Up 5%, then 7.5 % and 12%")))
             [mkResult None (Some (lit "Revenue growth of 40%"))]).
  - vm_compute. reflexivity.
  - reflexivity.
  - vm_compute. lia.
Defined.

Lemma risk_items_length (unicode_lower : str -> str)
    (unicode_digit unicode_space : codepoint -> bool) (result : SearchResult) :
  length (risk_step unicode_lower unicode_digit unicode_space [] result) <= 3.
Proof.
  rewrite risk_items_eq. cbv zeta. rewrite length_app, length_map.
  pose proof (firstn_cap 2 (findall (down_re unicode_digit unicode_space)
                              (lower unicode_lower (get (content result) [])))).
  match goal with |- context [if ?b then _ else _] => destruct b end;
    unfold str, codepoint in *; cbn [length Nat.add]; lia.
Qed.

(** In [assess_market_risks] the first result is never cut.  A result
    adds at most three factors, the note and two changes, so when the
    first result adds any, the answer lists all of them, in their order,
    before at most as many factors of later results as the cap of three
    leaves room for. *)
Theorem risk_first_result_whole
    (web_search : str -> list SearchResult) (unicode_lower : str -> str)
    (unicode_digit unicode_space : codepoint -> bool) (stock_symbol : str)
    (first : SearchResult) (later : list SearchResult) :
  web_search
    (stock_symbol
       ++ lit " stock market risks volatility debt competition regulatory concerns") =
    first :: later ->
  risk_step unicode_lower unicode_digit unicode_space [] first <> [] ->
  exists more,
    length (risk_step unicode_lower unicode_digit unicode_space [] first ++ more) <= 3 /\
    starts_with more
      (fold_left (risk_step unicode_lower unicode_digit unicode_space) later []) /\
    assess_market_risks web_search unicode_lower unicode_digit unicode_space
      stock_symbol =
    lit "⚠️ RISK ASSESSMENT for " ++ stock_symbol ++ lit ": "
      ++ join (lit ", ")
           (risk_step unicode_lower unicode_digit unicode_space [] first ++ more).
Proof.
  intros Hsearch Hsome. rewrite assess_market_risks_eq, Hsearch. cbn [map concat].
  rewrite (fold_left_appending _ (risk_step_appends _ _ _)). cbn [app].
  set (items := risk_step unicode_lower unicode_digit unicode_space []) in *.
  set (rest := concat (map items later)).
  pose proof (risk_items_length unicode_lower unicode_digit unicode_space first)
    as Hlen. fold items in Hlen.
  exists (firstn (3 - length (items first)) rest).
  assert (Hfirst : firstn 3 (items first ++ rest) =
                   items first ++ firstn (3 - length (items first)) rest).
  { rewrite firstn_app. f_equal. now apply firstn_all2. }
  split; [rewrite <- Hfirst; apply firstn_cap|].
  split.
  - exists (skipn (3 - length (items first)) rest). symmetry. apply firstn_skipn.
  - destruct (items first ++ rest) as [|x l] eqn:E.
    + destruct (items first); [congruence | discriminate E].
    + cbv beta iota. do 4 f_equal. exact Hfirst.
Qed.

(** A note and a change in the first result, a note in the second. *)
Lemma risk_first_result_whole_witness :
  exists more,
    assess_market_risks
      (fun _ => [mkResult None (Some (lit "Debt is up, shares down 4%"));
                 mkResult None (Some (lit "Competition grows"))])
      (fun s => s) (fun _ => false) (fun _ => false) (lit "ACME") =
    lit "⚠️ RISK ASSESSMENT for ACME: "
      ++ join (lit ", ") ([lit "Market risk identified"; lit "Down 4%"] ++ more).
Proof.
  destruct (@risk_first_result_whole
              (fun _ => [mkResult None (Some (lit "Debt is up, shares down 4%"));
                         mkResult None (Some (lit "Competition grows"))])
              (fun s => s) (fun _ => false) (fun _ => false) (lit "ACME")
              (mkResult None (Some (lit "Debt is up, shares down 4%")))
              [mkResult None (Some (lit "Competition grows"))])
    as [more [_ [_ Hout]]].
  - reflexivity.
  - vm_compute. discriminate.
  - exists more. rewrite Hout. vm_compute. reflexivity.
Defined.

(** ** Empty keywords and results without text *)


Lemma occurs_in_nil (w : str) : occurs_in w [] <-> w = [].
Proof.
  split.
  - intros [pre [post H]]. symmetry in H.
    apply app_eq_nil in H. destruct H as [_ H].
    now apply app_eq_nil in H.
  - intros ->. now exists [], [].
Qed.

Lemma mentions_nothing_in_empty (unicode_lower : str -> str) (keywords : list str) :
  mentions (lower unicode_lower) keywords [] <-> In [] keywords.
Proof.
  unfold mentions. change (lower unicode_lower []) with (@nil codepoint). split.
  - intros [word [Hin Hocc]]. apply occurs_in_nil in Hocc. now subst.
  - intros Hin. exists []. split; [assumption | now apply occurs_in_nil].
Qed.


Lemma sentiment_eq
    (web_search : str -> list SearchResult) (unicode_lower : str -> str)
    (stock_symbol : str) :
  get_current_market_sentiment web_search unicode_lower stock_symbol =
  match filter (fun r => check_signals unicode_lower
                           (get (title r) [] ++ get (content r) []) sentiment_keywords)
          (web_search
             (stock_symbol
                ++ lit " stock current price today market sentiment analyst rating"))
  with
  | [] => lit "📊 CURRENT MARKET DATA" ++ lit " " ++ stock_symbol ++ lit ": "
            ++ lit "Market data limited - need more information for decision"
  | found =>
      lit "📊 CURRENT MARKET DATA" ++ lit " for " ++ stock_symbol ++ lit ":" ++ NL
        ++ join NL (map (fun r => sentiment_entry (get (title r) []) (get (content r) []))
                      (firstn 2 found))
  end.
Proof.
  unfold get_current_market_sentiment. cbv zeta. rewrite sentiment_data_eq.
  destruct (filter _ _) as [|r found]; [reflexivity|].
  now rewrite firstn_map.
Qed.

(** Results without text count as no results.  When every result of the
    search lacks the title and the content, or has them empty, each of
    the five search tools answers with its default message. *)
Theorem results_without_text
    (web_search : str -> list SearchResult) (unicode_lower : str -> str)
    (unicode_digit unicode_space : codepoint -> bool) (stock_symbol : str) :
  (forall query r, In r (web_search query) ->
     get (title r) [] = [] /\ get (content r) [] = []) ->
  find_positive_news web_search unicode_lower stock_symbol =
    lit "🐂 POSITIVE SIGNALS " ++ stock_symbol
      ++ lit ": Limited positive news found, but that could mean it's undervalued!" /\
  calculate_growth_potential web_search unicode_lower unicode_digit unicode_space
    stock_symbol =
    lit "📈 " ++ stock_symbol
      ++ lit ": Growth data limited, but could indicate overlooked opportunity!" /\
  find_negative_news web_search unicode_lower stock_symbol =
    lit "🐻 WARNING SIGNALS " ++ stock_symbol
      ++ lit ": No major red flags found, but market volatility always poses risks!" /\
  assess_market_risks web_search unicode_lower unicode_digit unicode_space
    stock_symbol =
    lit "⚠️ " ++ stock_symbol
      ++ lit ": Risk factors unclear - proceed with extreme caution!" /\
  get_current_market_sentiment web_search unicode_lower stock_symbol =
    lit "📊 CURRENT MARKET DATA " ++ stock_symbol
      ++ lit ": Market data limited - need more information for decision".
Proof.
  intros Hempty.
  assert (Hnews : forall query keywords prefix default_msg,
             ~ In [] keywords ->
             search_and_extract_signals web_search unicode_lower
               stock_symbol query keywords prefix default_msg =
             prefix ++ lit " " ++ stock_symbol ++ lit ": " ++ default_msg).
  { intros query keywords prefix default_msg Hkeys.
    apply search_and_extract_signals_default. intros r Hin.
    rewrite (proj2 (Hempty query r Hin)). now rewrite mentions_nothing_in_empty. }
  assert (Hkeys : forall keywords : list str,
             forallb (fun w => negb (length w =? 0)) keywords = true ->
             ~ In [] keywords).
  { intros keywords Hall Hin. rewrite forallb_forall in Hall.
    now specialize (Hall [] Hin). }
  repeat split.
  - unfold find_positive_news. cbv zeta. rewrite Hnews by now apply Hkeys.
    vm_compute. reflexivity.
  - rewrite calculate_growth_potential_eq.
    replace (concat _) with (@nil str); [reflexivity|].
    symmetry. apply concat_nil_iff, Forall_map, Forall_forall. intros r Hin.
    rewrite growth_items_eq. cbv zeta. rewrite (proj2 (Hempty _ r Hin)).
    vm_compute. reflexivity.
  - unfold find_negative_news. cbv zeta. rewrite Hnews by now apply Hkeys.
    vm_compute. reflexivity.
  - rewrite assess_market_risks_eq.
    replace (concat _) with (@nil str); [reflexivity|].
    symmetry. apply concat_nil_iff, Forall_map, Forall_forall. intros r Hin.
    rewrite risk_items_eq. cbv zeta. rewrite (proj2 (Hempty _ r Hin)).
    vm_compute. reflexivity.
  - rewrite sentiment_eq.
    replace (filter _ _) with (@nil SearchResult); [vm_compute; reflexivity|].
    symmetry. apply filter_nil_iff. intros r Hin.
    destruct (Hempty _ r Hin) as [-> ->]. reflexivity.
Qed.

(** Results without text, on a client that answers with a result that
    has neither key. *)
Lemma results_without_text_witness :
  calculate_growth_potential (fun _ => [mkResult None None])
    (fun s => s) (fun _ => false) (fun _ => false) (lit "ACME") =
  lit "📈 " ++ lit "ACME"
    ++ lit ": Growth data limited, but could indicate overlooked opportunity!".
Proof.
  refine (proj1 (proj2 (@results_without_text (fun _ => [mkResult None None])
                          (fun s => s) (fun _ => false) (fun _ => false)
                          (lit "ACME") _))).
  intros query r [<-|[]]. split; reflexivity.
Defined.

(** ** The symbol in every answer *)

Lemma occurs_in_middle (pre w post : str) : occurs_in w (pre ++ w ++ post).
Proof. now exists pre, post. Qed.

(** Every answer of the six tools holds the stock symbol it was asked
    about, whatever the search returned and whichever branch was taken. *)
Theorem symbol_in_every_answer
    (web_search : str -> list SearchResult) (unicode_lower : str -> str)
    (unicode_digit unicode_space : codepoint -> bool) (stock_symbol : str) :
  occurs_in stock_symbol (find_positive_news web_search unicode_lower stock_symbol) /\
  occurs_in stock_symbol
    (calculate_growth_potential web_search unicode_lower unicode_digit unicode_space
       stock_symbol) /\
  occurs_in stock_symbol (find_negative_news web_search unicode_lower stock_symbol) /\
  occurs_in stock_symbol
    (assess_market_risks web_search unicode_lower unicode_digit unicode_space
       stock_symbol) /\
  occurs_in stock_symbol
    (get_current_market_sentiment web_search unicode_lower stock_symbol) /\
  (forall bull_points bear_points : str,
     occurs_in stock_symbol
       (make_investment_decision unicode_lower stock_symbol bull_points bear_points)).
Proof.
  assert (Hnews : forall query keywords prefix default_msg,
             occurs_in stock_symbol
               (search_and_extract_signals web_search unicode_lower
                  stock_symbol query keywords prefix default_msg)).
  { intros. rewrite search_and_extract_signals_eq.
    destruct (filter _ _); rewrite app_assoc; apply occurs_in_middle. }
  repeat split.
  - apply Hnews.
  - rewrite calculate_growth_potential_eq. destruct (concat _); apply occurs_in_middle.
  - apply Hnews.
  - rewrite assess_market_risks_eq. destruct (concat _); apply occurs_in_middle.
  - rewrite sentiment_eq.
    destruct (filter _ _); rewrite app_assoc; apply occurs_in_middle.
  - intros bull_points bear_points. rewrite make_investment_decision_eq.
    unfold decision_report. apply occurs_in_middle.
Qed.

(** ** The decision on the two news answers *)

(** The decision an orchestrator gets when it passes the answers of
    [find_positive_news] and [find_negative_news] for a symbol on to
    [make_investment_decision], when neither the symbol nor the titles
    and contents returned by the search hold a bullet.  Each answer
    scores one point plus one for each finding it shows, at most two.
    With more negative findings shown than positive ones the decision is
    SELL/AVOID with confidence High, whatever the findings say; with
    equally many it is HOLD/RESEARCH MORE; with more positive ones it is
    BUY or HOLD/RESEARCH MORE, never SELL/AVOID. *)
Theorem decision_on_news
    (web_search : str -> list SearchResult) (unicode_lower : str -> str)
    (stock_symbol : str) :
  keeps_ascii_runs (lower unicode_lower) ->
  bullet_free stock_symbol ->
  (forall query r, In r (web_search query) ->
     bullet_free (get (title r) []) /\ bullet_free (get (content r) [])) ->
  exists positive negative,
    kept (fun r =>
            mentions (lower unicode_lower)
              [lit "profit"; lit "growth"; lit "upgrade"; lit "beat"; lit "strong";
               lit "positive"; lit "bullish"]
              (get (content r) []))
      (web_search
         (stock_symbol
            ++ lit " stock positive news earnings growth revenue profit upgrade"))
      positive /\
    kept (fun r =>
            mentions (lower unicode_lower)
              [lit "loss"; lit "decline"; lit "risk"; lit "warning"; lit "downgrade";
               lit "weak"; lit "negative"; lit "bearish"; lit "concern"]
              (get (content r) []))
      (web_search
         (stock_symbol
            ++ lit " stock negative news risks decline losses downgrade warning"))
      negative /\
    let shown_positive := Nat.min 2 (length positive) in
    let shown_negative := Nat.min 2 (length negative) in
    let result :=
      make_investment_decision unicode_lower stock_symbol
        (find_positive_news web_search unicode_lower stock_symbol)
        (find_negative_news web_search unicode_lower stock_symbol) in
    let report recommendation confidence :=
      decision_report unicode_lower stock_symbol recommendation confidence
        (1 + shown_positive) (1 + shown_negative) in
    (shown_positive < shown_negative ->
       result = report (lit "SELL/AVOID") (lit "High")) /\
    (shown_positive = shown_negative ->
       result = report (lit "HOLD/RESEARCH MORE") (lit "Medium")) /\
    (shown_negative < shown_positive ->
       result = report (lit "BUY") (lit "High") \/
       result = report (lit "HOLD/RESEARCH MORE") (lit "Medium")).
Proof.
  intros Hlower Hsymbol Hresults.
  set (q_pos := stock_symbol
                  ++ lit " stock positive news earnings growth revenue profit upgrade").
  set (q_neg := stock_symbol
                  ++ lit " stock negative news risks decline losses downgrade warning").
  set (k_pos := [lit "profit"; lit "growth"; lit "upgrade"; lit "beat"; lit "strong";
                 lit "positive"; lit "bullish"]).
  set (k_neg := [lit "loss"; lit "decline"; lit "risk"; lit "warning"; lit "downgrade";
                 lit "weak"; lit "negative"; lit "bearish"; lit "concern"]).
  set (positive := filter (fun r => check_signals unicode_lower (get (content r) []) k_pos)
                     (web_search q_pos)).
  set (negative := filter (fun r => check_signals unicode_lower (get (content r) []) k_neg)
                     (web_search q_neg)).
  exists positive, negative.
  split; [apply kept_filter; intros r; apply check_signals_iff|].
  split; [apply kept_filter; intros r; apply check_signals_iff|].
  intros shown_positive shown_negative result report.
  assert (Hlit : forall s, occurrences bullet s = 0 -> bullet_free s)
    by (intros s; apply bullet_free_iff).
  assert (Ebull : count_points (find_positive_news web_search unicode_lower stock_symbol)
                  = 1 + shown_positive).
  { unfold find_positive_news. cbv zeta.
    rewrite search_and_extract_signals_score;
      [| now apply Hlit | assumption | now apply Hlit | apply Hresults].
    fold k_pos q_pos positive. subst shown_positive.
    rewrite length_firstn. reflexivity. }
  assert (Ebear : count_points (find_negative_news web_search unicode_lower stock_symbol)
                  = 1 + shown_negative).
  { unfold find_negative_news. cbv zeta.
    rewrite search_and_extract_signals_score;
      [| now apply Hlit | assumption | now apply Hlit | apply Hresults].
    fold k_neg q_neg negative. subst shown_negative.
    rewrite length_firstn. reflexivity. }
  pose proof (find_negative_news_warns web_search stock_symbol Hlower) as Hwarn.
  subst result report. cbv beta. rewrite make_investment_decision_eq.
  unfold decision. rewrite Hwarn, Ebull, Ebear.
  split; [|split]; intros Hcmp.
  - replace (1 + shown_negative <? 1 + shown_positive) with false
      by (symmetry; apply Nat.ltb_ge; lia).
    replace (1 + shown_positive <? 1 + shown_negative) with true
      by (symmetry; apply Nat.ltb_lt; lia).
    reflexivity.
  - rewrite Hcmp, Nat.ltb_irrefl. reflexivity.
  - replace (1 + shown_positive <? 1 + shown_negative) with false
      by (symmetry; apply Nat.ltb_ge; lia).
    cbn [andb]. destruct (_ && _); [left | right]; reflexivity.
Qed.

(** One negative finding against no positive one. *)
Lemma decision_on_news_witness :
  make_investment_decision ascii_lower (lit "ACME")
    (find_positive_news
       (fun _ => [mkResult (Some (lit "ACME slips")) (Some (lit "Analysts see a loss."))])
       ascii_lower (lit "ACME"))
    (find_negative_news
       (fun _ => [mkResult (Some (lit "ACME slips")) (Some (lit "Analysts see a loss."))])
       ascii_lower (lit "ACME")) =
  decision_report ascii_lower (lit "ACME") (lit "SELL/AVOID") (lit "High") 1 2.
Proof.
  destruct (@decision_on_news
              (fun _ => [mkResult (Some (lit "ACME slips"))
                                  (Some (lit "Analysts see a loss."))])
              ascii_lower (lit "ACME") ascii_lower_keeps_runs)
    as [positive [negative [Hpos [Hneg [Hsell _]]]]].
  - apply bullet_free_iff. reflexivity.
  - intros query r [<-|[]]. split; apply bullet_free_iff; reflexivity.
  - assert (Epos : positive = []).
    { inversion Hpos as [|x l f Hx Hrest|x l f Hx Hrest]; subst.
      - exfalso. apply check_signals_iff in Hx. vm_compute in Hx. discriminate.
      - now inversion Hrest. }
    assert (Eneg : negative = [mkResult (Some (lit "ACME slips"))
                                        (Some (lit "Analysts see a loss."))]).
    { inversion Hneg as [|x l f Hx Hrest|x l f Hx Hrest]; subst.
      - now inversion Hrest.
      - exfalso. apply Hx. apply check_signals_iff. vm_compute. reflexivity. }
    subst positive negative. apply Hsell. vm_compute. lia.
Defined.
